(** * Dynamic Media video block: a shallow embedding of
      [blocks/dynamic-media-video/dynamic-media-video.js]

    The block decorator reads authored configuration from a DOM subtree,
    derives streaming and poster URLs from an asset link, instantiates a
    third-party player and wires analytics listeners to it.

    Conventions of the embedding:
    - JavaScript strings are [string]s; a character stands for one code unit
      in the range 0..255.
    - JavaScript numbers are IEEE 754 binary64 values, i.e. [float].
    - Everything the browser or the third-party viewer provides (URL parser,
      JSON parser, number printing, the viewer constructor, ...) is a field
      of the record [World]; general statements quantify over every world.
    - Decoration runs in a small state-and-exception monad over a [page]:
      the block being decorated and the trace of observable effects. *)

From Stdlib Require Import PrimFloat Ascii NArith ZArith Sorted.
From stdpp Require Import gmap strings list.

Local Open Scope string_scope.
Local Open Scope list_scope.
Set Warnings "-register-all".

(* ===================================================================== *)
(** ** Strings *)
(* ===================================================================== *)

Definition code (c : ascii) : N := N_of_ascii c.

Definition between (lo hi : N) (c : ascii) : bool :=
  (lo <=? code c)%N && (code c <=? hi)%N.

(** [String.prototype.toLowerCase] on code units below 256. *)
Definition lower_char (c : ascii) : ascii :=
  if between 65 90 c || (between 192 222 c && negb (code c =? 215)%N)
  then ascii_of_N (code c + 32) else c.

Fixpoint toLowerCase (s : string) : string :=
  match s with
  | EmptyString => EmptyString
  | String c s' => String (lower_char c) (toLowerCase s')
  end.

(** The regular-expression [Canonicalize] operation under the [i] flag
    (no [u] flag), restricted to what can equal an ASCII pattern character:
    a code unit of 128 or more never canonicalizes to an ASCII one. *)
Definition canonicalize (c : ascii) : ascii :=
  if between 97 122 c then ascii_of_N (code c - 32) else c.

(** White space and line terminators removed by [String.prototype.trim]. *)
Definition is_space (c : ascii) : bool :=
  between 9 13 c || (code c =? 32)%N || (code c =? 160)%N.

Fixpoint trimStart (s : string) : string :=
  match s with
  | EmptyString => EmptyString
  | String c s' => if is_space c then trimStart s' else s
  end.

Fixpoint trimEnd (s : string) : string :=
  match s with
  | EmptyString => EmptyString
  | String c s' =>
      match trimEnd s' with
      | EmptyString => if is_space c then EmptyString else String c EmptyString
      | t => String c t
      end
  end.

Definition trim (s : string) : string := trimEnd (trimStart s).

Definition concat_strings (l : list string) : string :=
  foldr String.append EmptyString l.

(** JavaScript truthiness of a string. *)
Definition nonempty (s : string) : bool :=
  match s with EmptyString => false | _ => true end.

(** [a || b] on strings. *)
Definition str_or (a b : string) : string := if nonempty a then a else b.

(* ===================================================================== *)
(** ** The asset-identifier pattern  [/(\/adobe\/assets\/urn:[^/]+)/i] *)
(* ===================================================================== *)

Definition urn_prefix : string := "/adobe/assets/urn:".

(** Match the literal part of the pattern, ignoring case, at the start of
    [s]; the result is what follows it. *)
Fixpoint strip_prefix_i (p s : string) : option string :=
  match p with
  | EmptyString => Some s
  | String a p' =>
      match s with
      | EmptyString => None
      | String b s' =>
          if Ascii.eqb (canonicalize a) (canonicalize b)
          then strip_prefix_i p' s' else None
      end
  end.

(** The longest run matched by the greedy class [[^/]*]. *)
Fixpoint non_slash_run (s : string) : string :=
  match s with
  | EmptyString => EmptyString
  | String c s' =>
      if Ascii.eqb c "/" then EmptyString else String c (non_slash_run s')
  end.

(** An attempt to match the whole pattern at the start of [s]. *)
Definition match_here (s : string) : option string :=
  match strip_prefix_i urn_prefix s with
  | Some rest =>
      let run := non_slash_run rest in
      if nonempty run
      then Some (String.substring 0 (String.length urn_prefix + String.length run) s)
      else None
  | None => None
  end.

(** [RegExp.prototype.exec]: the leftmost match, as the index where it
    starts and the text of capture group 1. *)
Fixpoint urn_exec (s : string) : option (nat * string) :=
  match match_here s with
  | Some m => Some (0, m)
  | None =>
      match s with
      | EmptyString => None
      | String _ s' =>
          match urn_exec s' with
          | Some (i, m) => Some (S i, m)
          | None => None
          end
      end
  end.

(** [videoUrl.match(urnPattern)], reduced to [match[1]]. *)
Definition urn_match (s : string) : option string :=
  snd <$> urn_exec s.

(* ===================================================================== *)
(** ** URL derivation (lines 169-179) *)
(* ===================================================================== *)

(** The two fields of a [URL] object the code reads. *)
Record URL := mkURL { protocol : string; hostname : string }.

Record media_urls := mkMedia {
  posterImageUrl : string;
  dashUrl : string;
  hlsUrl : string
}.

Definition baseUrl (u : URL) : string :=
  protocol u +:+ "//" +:+ hostname u.

Definition derive_urls (u : URL) (assetIdPath : string) : media_urls :=
  {| posterImageUrl :=
       baseUrl u +:+ assetIdPath +:+ "/as/thumbnail.jpeg?preferwebp=true";
     dashUrl := baseUrl u +:+ assetIdPath +:+ "/manifest.mpd";
     hlsUrl := baseUrl u +:+ assetIdPath +:+ "/manifest.m3u8" |}.

(* ===================================================================== *)
(** ** JavaScript values and exceptions *)
(* ===================================================================== *)

(** The values [JSON.parse] can produce, and [undefined]. *)
Inductive jsval :=
| JUndefined
| JNull
| JBool (b : bool)
| JNum (x : float)
| JStr (s : string)
| JArr (items : list jsval)
| JObj (fields : list (string * jsval)).

Inductive js_error :=
| TypeError (msg : string)
| SyntaxError (msg : string)
| Error (msg : string).

Definition message (e : js_error) : string :=
  match e with TypeError m | SyntaxError m | Error m => m end.

(** The result of calling into code that may throw. *)
Inductive attempt (A : Type) :=
| Returns (a : A)
| Throws (e : js_error).
Arguments Returns {A} a.
Arguments Throws {A} e.

(** [ToBoolean] on numbers: [NaN], [+0] and [-0] are falsy. *)
Definition number_truthy (x : float) : bool :=
  negb (PrimFloat.is_nan x || PrimFloat.eqb x 0%float).

Definition truthy (v : jsval) : bool :=
  match v with
  | JUndefined | JNull => false
  | JBool b => b
  | JNum x => number_truthy x
  | JStr s => nonempty s
  | JArr _ | JObj _ => true
  end.

Fixpoint assoc (k : string) (fields : list (string * jsval)) : jsval :=
  match fields with
  | [] => JUndefined
  | (k', v) :: rest => if String.eqb k k' then v else assoc k rest
  end.

(** [v.k] for a key [k] that no prototype defines ([label], [time], and on
    objects [length] and [forEach]). *)
Definition member (v : jsval) (k : string) : attempt jsval :=
  match v with
  | JUndefined | JNull =>
      Throws (TypeError ("Cannot read properties of null or undefined, reading " +:+ k))
  | JObj fields => Returns (assoc k fields)
  | _ => Returns JUndefined
  end.

(** Truthiness of [v.length]. *)
Definition length_truthy (v : jsval) : attempt bool :=
  match v with
  | JArr items => Returns (negb (bool_decide (items = [])))
  | JStr s => Returns (nonempty s)
  | JObj _ => match member v "length" with
              | Returns l => Returns (truthy l)
              | Throws e => Throws e
              end
  | JNum _ | JBool _ => Returns false
  | JUndefined | JNull =>
      Throws (TypeError "Cannot read properties of null or undefined, reading length")
  end.

(* ===================================================================== *)
(** ** The DOM *)
(* ===================================================================== *)

Record props := mkProps {
  tag : string;                    (* local name, lower case *)
  attrs : gmap string string;      (* content attributes, [id] included *)
  classes : list string;           (* classList *)
  display : string                 (* style.display *)
}.

Inductive node :=
| Text (data : string)
| Elem (p : props) (kids : list node).

(** The block root: its own properties and its child nodes. *)
Record block := mkBlock { b_props : props; b_kids : list node }.

Definition is_elem (n : node) : bool :=
  match n with Elem _ _ => true | Text _ => false end.

(** [el.children]: the child elements. *)
Definition children (kids : list node) : list node := filter is_elem kids.

(** A node and its descendants in document order. *)
Fixpoint subtree (n : node) : list node :=
  match n with
  | Text _ => [n]
  | Elem _ kids => n :: flat_map subtree kids
  end.

Definition descendants (kids : list node) : list node := flat_map subtree kids.

Fixpoint textContent (n : node) : string :=
  match n with
  | Text s => s
  | Elem _ kids => concat_strings (map textContent kids)
  end.

Definition has_tag (t : string) (n : node) : bool :=
  match n with
  | Elem p _ => String.eqb (tag p) t
  | Text _ => false
  end.

(** The selector [a[href]]. *)
Definition is_link (n : node) : bool :=
  match n with
  | Elem p _ => String.eqb (tag p) "a" && bool_decide (is_Some (attrs p !! "href"))
  | Text _ => false
  end.

(** [el.querySelector(t)] for a type selector [t]. *)
Definition querySelector (t : string) (kids : list node) : option node :=
  head (filter (has_tag t) (descendants kids)).

(** [block.querySelectorAll('a[href]')]. *)
Definition videoLinks (b : block) : list node :=
  filter is_link (descendants (b_kids b)).

Definition href_attr (n : node) : string :=
  match n with
  | Elem p _ => default EmptyString (attrs p !! "href")
  | Text _ => EmptyString
  end.

(** [el.dataset[name]] for a lower-case [name]. *)
Definition dataset (p : props) (name : string) : option string :=
  attrs p !! ("data-" +:+ name).

Definition set_display (v : string) (p : props) : props :=
  {| tag := tag p; attrs := attrs p; classes := classes p; display := v |}.

Definition set_attr (k v : string) (p : props) : props :=
  {| tag := tag p; attrs := <[k := v]> (attrs p);
     classes := classes p; display := display p |}.

(** [classList.add]. *)
Definition add_class (c : string) (p : props) : props :=
  {| tag := tag p; attrs := attrs p;
     classes := if bool_decide (c ∈ classes p) then classes p
                else classes p ++ [c];
     display := display p |}.

Definition hide (n : node) : node :=
  match n with
  | Elem p kids => Elem (set_display "none" p) kids
  | Text _ => n
  end.

Definition hide_unless_ui (n : node) : node :=
  match n with
  | Elem p kids =>
      if bool_decide ("dm-video-ui" ∈ classes p) then n
      else Elem (set_display "none" p) kids
  | Text _ => n
  end.

Definition new_element (t : string) (cls : list string)
    (a : gmap string string) (kids : list node) : node :=
  Elem {| tag := t; attrs := a; classes := cls; display := EmptyString |} kids.

(** [el.textContent = s]. *)
Definition text_kids (s : string) : list node :=
  if nonempty s then [Text s] else [].

(* ===================================================================== *)
(** ** The environment of a decoration *)
(* ===================================================================== *)

(** The media handle returned by [getMediaPlayer()]: registering a listener
    may throw (for one, when the handle has no [addEventListener]). *)
Record player := mkPlayer { addEventListener : string -> attempt unit }.

(** [videoViewer.getMediaPlayer]: not a function, or a function whose call
    throws or returns a handle ([None] for a falsy result). *)
Inductive media_accessor :=
| NotAFunction
| Accessor (call : attempt (option player)).

(** A constructed third-party viewer. *)
Record viewer := mkViewer {
  init : attempt unit;
  getMediaPlayer : media_accessor
}.

Record viewer_params := mkParams {
  posterimage : string;
  autoplay : string;
  loop : string;
  muted : string;
  hidecontrolbar : string;
  sources : gmap string string
}.

Record viewer_config := mkConfig {
  containerId : string;
  params : viewer_params
}.

(** What a decoration finds on the page.  The readiness gate is taken as
    settled: it ends in the platform's load or error event for the script
    and, after that, in the bounded wait of [waitForDMViewer]. *)
Record World := mkWorld {
  (** how [await loadDMVideoViewer()] settles *)
  gate : attempt unit;
  (** [window.dmviewers?.VideoViewer], with the behaviour of [new] on it *)
  VideoViewer : option (viewer_config -> attempt viewer);
  (** the [href] property of a link, from its [href] attribute *)
  href_property : string -> string;
  (** [new URL(s)]; [None] when it throws a [TypeError] *)
  new_URL : string -> option URL;
  (** [JSON.parse(s)]; [None] when it throws a [SyntaxError] *)
  JSON_parse : string -> option jsval;
  (** [ToString] on numbers, arrays and objects *)
  ToString : jsval -> attempt string;
  (** [Date.now()] in decimal and
      [Math.random().toString(36).substring(2, 11)] *)
  now : string;
  random : string
}.

(** [ToString] as the DOM applies it to a value stored in [dataset]. *)
Definition to_string (w : World) (v : jsval) : attempt string :=
  match v with
  | JStr s => Returns s
  | JUndefined => Returns "undefined"
  | JNull => Returns "null"
  | JBool true => Returns "true"
  | JBool false => Returns "false"
  | _ => ToString w v
  end.

(** The conversion of the [textContent] setter: [null] and [undefined]
    become the empty string. *)
Definition to_text (w : World) (v : jsval) : attempt string :=
  match v with
  | JUndefined | JNull => Returns EmptyString
  | _ => to_string w v
  end.

(* ===================================================================== *)
(** ** Observable effects and the decoration monad *)
(* ===================================================================== *)

Inductive listen_target := OnPlayer | OnChapters.

Inductive effect :=
| SetMarker (v : string)                    (* data-video-loaded := v *)
| ConsoleError (msg : string) (detail : string)
| ConsoleWarn (msg : string)
| NewViewer (cfg : viewer_config)           (* new window.dmviewers.VideoViewer(cfg) *)
| Init                                      (* videoViewer.init() *)
| GetMediaPlayer                            (* videoViewer.getMediaPlayer() *)
| Listen (t : listen_target) (event : string).

Record page := mkPage { blk : block; trace : list effect }.

Inductive outcome (A : Type) :=
| Done (a : A)
| Raised (e : js_error).
Arguments Done {A} a.
Arguments Raised {A} e.

Definition M (A : Type) : Type := page -> outcome A * page.

Definition ret {A} (a : A) : M A := fun s => (Done a, s).

Definition bind {A B} (m : M A) (k : A -> M B) : M B :=
  fun s => match m s with
           | (Done a, s') => k a s'
           | (Raised e, s') => (Raised e, s')
           end.

#[global] Instance M_ret : MRet M := @ret.
#[global] Instance M_bind : MBind M := fun A B k m => bind m k.

Definition throw {A} (e : js_error) : M A := fun s => (Raised e, s).

(** [try { body } catch (e) { handler e }]. *)
Definition try_catch {A} (body : M A) (handler : js_error -> M A) : M A :=
  fun s => match body s with
           | (Raised e, s') => handler e s'
           | r => r
           end.

Definition lift {A} (a : attempt A) : M A :=
  match a with
  | Returns x => ret x
  | Throws e => throw e
  end.

Definition get_block : M block := fun s => (Done (blk s), s).

Definition emit (e : effect) : M unit :=
  fun s => (Done tt, {| blk := blk s; trace := trace s ++ [e] |}).

Definition update_block (f : block -> block) : M unit :=
  fun s => (Done tt, {| blk := f (blk s); trace := trace s |}).

Definition update_props (f : props -> props) : M unit :=
  update_block (fun b => {| b_props := f (b_props b); b_kids := b_kids b |}).

Definition update_kids (f : list node -> list node) : M unit :=
  update_block (fun b => {| b_props := b_props b; b_kids := f (b_kids b) |}).

Definition marker_attr : string := "data-video-loaded".

(** [block.setAttribute('data-video-loaded', v)]. *)
Definition set_marker (v : string) : M unit :=
  update_props (set_attr marker_attr v) ;; emit (SetMarker v).

Definition console_error (msg detail : string) : M unit :=
  emit (ConsoleError msg detail).

Definition appendChild (n : node) : M unit :=
  update_kids (fun kids : list node => (kids ++ [n])%list).

(** The value of the marker on a block. *)
Definition marker (b : block) : option string :=
  attrs (b_props b) !! marker_attr.

(* ===================================================================== *)
(** ** Configuration extraction (lines 188-231) *)
(* ===================================================================== *)

Definition node_kids (n : node) : list node :=
  match n with Elem _ kids => kids | Text _ => [] end.

(** [getTextFromRow], over the snapshot [rows] of [block.children]. *)
Definition getTextFromRow (rows : list node) (index : nat) : string :=
  match rows !! index with
  | None => EmptyString
  | Some row =>
      let textEl :=
        match querySelector "p" (node_kids row) with
        | Some el => Some el
        | None => querySelector "div" (node_kids row)
        end in
      str_or (from_option (fun el => trim (textContent el)) EmptyString textEl)
             (str_or (trim (textContent row)) EmptyString)
  end.

Definition is_true_text (s : string) : bool :=
  String.eqb (toLowerCase s) "true".

Definition getBoolFromDataOrRow (b : block) (rows : list node)
    (attrName : string) (rowIndex : nat) (defaultValue : bool) : bool :=
  match dataset (b_props b) attrName with
  | Some v => is_true_text v
  | None =>
      let rowValue := getTextFromRow rows rowIndex in
      if nonempty rowValue then is_true_text rowValue else defaultValue
  end.

Record flags := mkFlags {
  f_autoplay : bool;
  f_loop : bool;
  f_muted : bool;
  f_showControls : bool
}.

(** Lines 213-219. *)
Definition read_flags (b : block) : flags :=
  let rows := children (b_kids b) in
  {| f_autoplay := getBoolFromDataOrRow b rows "autoplay" 2 false;
     f_loop := getBoolFromDataOrRow b rows "loop" 3 false;
     f_muted := getBoolFromDataOrRow b rows "muted" 4 false;
     f_showControls :=
       match dataset (b_props b) "controls" with
       | Some v => is_true_text v
       | None => true
       end |}.

(** Lines 223-231: the chapters value, [[]] unless the attribute parses. *)
Definition read_chapters (w : World) : M jsval :=
  b ← get_block;
  match dataset (b_props b) "chapters" with
  | Some text =>
      if nonempty text then
        match JSON_parse w text with
        | Some v => mret v
        | None =>
            emit (ConsoleWarn "Invalid chapters JSON on dm-video block") ;;
            mret (JArr [])
        end
      else mret (JArr [])
  | None => mret (JArr [])
  end.

(* ===================================================================== *)
(** ** Rendering (lines 181-182, 233-277) *)
(* ===================================================================== *)

Definition block_id (p : props) : string := default EmptyString (attrs p !! "id").

Definition generated_id (w : World) : string :=
  "dm-video-" +:+ now w +:+ "-" +:+ random w.

(** [block.id = block.id || `dm-video-...`]. *)
Definition ensure_id (w : World) (p : props) : props :=
  set_attr "id" (str_or (block_id p) (generated_id w)) p.

Definition player_wrapper (playerId : string) : node :=
  new_element "div" ["dm-video-player-wrapper"] ∅
    [new_element "div" ["dm-video-player"] {[ "id" := playerId ]} []].

(** The body of [chapters.forEach] up to the button it builds. *)
Definition chapter_button (w : World) (chapter : jsval) : M node :=
  label ← lift (member chapter "label");
  text ← lift (to_text w label);
  time ← lift (member chapter "time");
  t ← lift (to_string w time);
  mret (new_element "button" ["dm-video-chapter"]
          (<["data-time" := t]> {[ "type" := "button" ]}) (text_kids text)).

Fixpoint for_each {A B} (f : A -> M B) (l : list A) : M (list B) :=
  match l with
  | [] => mret []
  | x :: rest => y ← f x; ys ← for_each f rest; mret (y :: ys)
  end.

Definition is_chapters_container (n : node) : bool :=
  match n with
  | Elem p _ => bool_decide ("dm-video-chapters" ∈ classes p)
  | Text _ => false
  end.

(** Lines 252-265; the result tells whether [chaptersContainer] is set. *)
Definition render_chapters (w : World) (chapters : jsval) : M bool :=
  some ← lift (length_truthy chapters);
  if some : bool then
    match chapters with
    | JArr items =>
        buttons ← for_each (chapter_button w) items;
        appendChild (new_element "div" ["dm-video-chapters"] ∅ buttons) ;;
        mret true
    | _ => throw (TypeError "chapters.forEach is not a function")
    end
  else mret false.

Definition flag_string (b : bool) : string := if b then "1" else "0".

Definition add_source (name url : string) (m : gmap string string)
  : gmap string string :=
  if nonempty url then <[name := url]> m else m.

(** Lines 267-277. *)
Definition make_params (urls : media_urls) (fl : flags) : viewer_params :=
  {| posterimage := posterImageUrl urls;
     autoplay := flag_string (f_autoplay fl);
     loop := flag_string (f_loop fl);
     muted := flag_string (f_muted fl);
     hidecontrolbar := flag_string (negb (f_showControls fl));
     sources := add_source "HLS" (hlsUrl urls)
                  (add_source "DASH" (dashUrl urls) ∅) |}.

(* ===================================================================== *)
(** ** Analytics wiring and player start-up (lines 78-122, 279-297) *)
(* ===================================================================== *)

Definition listen (p : player) (event : string) : M unit :=
  lift (addEventListener p event) ;; emit (Listen OnPlayer event).

Definition setupAnalytics (v : viewer) (assetIdPath : string)
    (chaptersContainer : bool) : M unit :=
  match getMediaPlayer v with
  | NotAFunction => mret tt
  | Accessor call =>
      emit GetMediaPlayer ;;
      handle ← lift call;
      match handle with
      | None => mret tt
      | Some p =>
          listen p "play" ;;
          listen p "pause" ;;
          listen p "ended" ;;
          listen p "timeupdate" ;;
          if chaptersContainer then emit (Listen OnChapters "click")
          else mret tt
      end
  end.

(** The [try] block that ends [decorate]. *)
Definition start_player (ctor : viewer_config -> attempt viewer)
    (cfg : viewer_config) (assetIdPath : string) (chaptersContainer : bool)
  : M unit :=
  try_catch
    (set_marker "loading" ;;
     emit (NewViewer cfg) ;;
     videoViewer ← lift (ctor cfg);
     emit Init ;;
     lift (init videoViewer) ;;
     setupAnalytics videoViewer assetIdPath chaptersContainer ;;
     set_marker "true")
    (fun e =>
       console_error "Failed to initialize DM VideoViewer" (message e) ;;
       set_marker "error").

(* ===================================================================== *)
(** ** [decorate] (lines 128-298) *)
(* ===================================================================== *)

(** Lines 169-277: everything between the pattern match and the final
    [try]; the result is what the [try] block needs. *)
Definition build (w : World) (videoUrl assetIdPath : string)
  : M (viewer_config * bool) :=
  match new_URL w videoUrl with
  | None => throw (TypeError ("Invalid URL: " +:+ videoUrl))
  | Some videoURLObj =>
      let urls := derive_urls videoURLObj assetIdPath in
      update_props (ensure_id w) ;;
      b ← get_block;
      let fl := read_flags b in
      chapters ← read_chapters w;
      update_kids (map hide_unless_ui) ;;
      appendChild (player_wrapper (block_id (b_props b) +:+ "-player")) ;;
      chaptersContainer ← render_chapters w chapters;
      mret ({| containerId := block_id (b_props b) +:+ "-player";
               params := make_params urls fl |}, chaptersContainer)
  end.

Definition decorate (w : World) : M unit :=
  update_props (add_class "dynamic-media-video") ;;
  match gate w with
  | Throws error =>
      console_error "Failed to load DM VideoViewer:" (message error) ;;
      set_marker "error"
  | Returns _ =>
      match VideoViewer w with
      | None =>
          console_error "DM VideoViewer not available on window.dmviewers" EmptyString ;;
          set_marker "error"
      | Some ctor =>
          b ← get_block;
          match videoLinks b with
          | [] =>
              update_kids (map hide) ;;
              set_marker "error"
          | link :: _ =>
              let videoUrl := href_property w (href_attr link) in
              match urn_match videoUrl with
              | None =>
                  console_error "Invalid Dynamic Media video URL format" videoUrl ;;
                  set_marker "error"
              | Some assetIdPath =>
                  '(cfg, chaptersContainer) ← build w videoUrl assetIdPath;
                  start_player ctor cfg assetIdPath chaptersContainer
              end
          end
      end
  end.

(** A decoration run from a block with an empty trace. *)
Definition run (w : World) (b : block) : outcome unit * page :=
  decorate w {| blk := b; trace := [] |}.

(* ===================================================================== *)
(** ** Analytics events and milestone tracking (lines 55-70, 89-104) *)
(* ===================================================================== *)

(** One call [fireAnalyticsEvent(type, assetPath, payload)]. *)
Record analytics_call := mkCall {
  ev_type : string;
  ev_asset : string;
  ev_payload : list (string * jsval)
}.

(** The two sinks: [window.adobeDataLayer] when it is an array, the debug
    console otherwise. *)
Record sinks := mkSinks {
  adobeDataLayer : option (list analytics_call);
  console_debug : list (string * list (string * jsval))
}.

Definition fireAnalyticsEvent (c : analytics_call) (s : sinks) : sinks :=
  match adobeDataLayer s with
  | Some layer =>
      {| adobeDataLayer := Some (layer ++ [c]);
         console_debug := console_debug s |}
  | None =>
      {| adobeDataLayer := None;
         console_debug := console_debug s ++ [(ev_type c, ev_payload c)] |}
  end.

Definition milestones : list float := [0.25; 0.5; 0.75]%float.

(** [SameValueZero], the equality of [Set.prototype.has]. *)
Definition same_value_zero (a b : float) : bool :=
  PrimFloat.eqb a b || (PrimFloat.is_nan a && PrimFloat.is_nan b).

(** [hitMilestones.has(m)], the set kept in insertion order. *)
Definition set_has (hit : list float) (m : float) : bool :=
  existsb (same_value_zero m) hit.

(** What the player reports on a tick; [None] is [undefined]. *)
Record tick := mkTick {
  duration : option float;
  currentTime : option float
}.

(** [x || 0]. *)
Definition or_zero (x : option float) : float :=
  match x with
  | Some v => if number_truthy v then v else 0%float
  | None => 0%float
  end.

Definition milestone_call (assetIdPath : string) (m : float) : analytics_call :=
  {| ev_type := "milestone";
     ev_asset := assetIdPath;
     ev_payload := [("milestone", JNum (m * 100)%float)] |}.

(** The body of [milestones.forEach]: the state is the set of thresholds
    already hit and the calls made so far on this tick. *)
Definition visit (assetIdPath : string) (progress : float)
    (st : list float * list analytics_call) (m : float)
  : list float * list analytics_call :=
  if PrimFloat.leb m progress && negb (set_has st.1 m)
  then (st.1 ++ [m], st.2 ++ [milestone_call assetIdPath m])
  else st.

(** The [timeupdate] listener. *)
Definition on_timeupdate (assetIdPath : string) (hit : list float) (t : tick)
  : list float * list analytics_call :=
  let duration := or_zero (duration t) in
  let currentTime := or_zero (currentTime t) in
  if negb (number_truthy duration) then (hit, [])
  else
    let progress := (currentTime / duration)%float in
    foldl (visit assetIdPath progress) (hit, []) milestones.

(** The calls made tick by tick, from a given set of hit thresholds. *)
Fixpoint ticks_from (assetIdPath : string) (hit : list float)
    (ticks : list tick) : list (list analytics_call) :=
  match ticks with
  | [] => []
  | t :: rest =>
      let r := on_timeupdate assetIdPath hit t in
      r.2 :: ticks_from assetIdPath r.1 rest
  end.

(** A playback session: [setupAnalytics] starts from [new Set()]. *)
Definition session (assetIdPath : string) (ticks : list tick)
  : list (list analytics_call) :=
  ticks_from assetIdPath [] ticks.

(** Whether a call reports the milestone of threshold [m]. *)
Definition reports (m : float) (c : analytics_call) : bool :=
  String.eqb (ev_type c) "milestone" &&
  match ev_payload c with
  | [(k, JNum pct)] => String.eqb k "milestone" && PrimFloat.eqb pct (m * 100)%float
  | _ => false
  end.

Definition times_reported (m : float) (calls : list analytics_call) : nat :=
  length (filter (fun c => reports m c = true) calls).

Definition ascending (ms : list float) : Prop :=
  StronglySorted (fun a b => PrimFloat.ltb a b = true) ms.

(* ===================================================================== *)
(** ** The script-readiness gate (lines 3-47) *)
(* ===================================================================== *)

Definition DM_VIDEO_VIEWER_URL : string :=
  "https://delivery-p153659-e1620914.adobeaemcloud.com/adobe/assets/urn:aaid:aem:dmviewers-html5/as/DMVideoViewer.js".

(** A promise is identified by its index in the heap.  [ResolvedWith p] is
    the state of a promise that was resolved with promise [p] and so settles
    as [p] does. *)
Inductive pstate :=
| Pending
| Fulfilled
| Rejected (e : js_error)
| ResolvedWith (p : nat).

(** Where the asynchronous function cached in [dmViewerPromise] stands. *)
Inductive load_phase :=
| Idle                        (* not started *)
| AwaitingScript              (* at [await loadScript(...)] *)
| Polling (startTime : Z)     (* at [await waitForDMViewer()], interval set *)
| Finished.

Record module_state := mkModule {
  dmViewerPromise : option nat;      (* [undefined] at first *)
  heap : list pstate;
  loadScript_calls : list string;    (* requests made to [loadScript] *)
  phase : load_phase;
  viewer_defined : bool;             (* [window.dmviewers?.VideoViewer] *)
  clock : Z;                         (* [Date.now()] *)
  returned : list nat                (* what each call returned, in order *)
}.

Definition initial : module_state :=
  {| dmViewerPromise := None; heap := []; loadScript_calls := [];
     phase := Idle; viewer_defined := false; clock := 0; returned := [] |}.

(** Settle the cached promise and finish. *)
Definition settle (st : pstate) (g : module_state) : module_state :=
  {| dmViewerPromise := dmViewerPromise g;
     heap := match dmViewerPromise g with
             | Some p => <[p := st]> (heap g)
             | None => heap g
             end;
     loadScript_calls := loadScript_calls g;
     phase := Finished;
     viewer_defined := viewer_defined g;
     clock := clock g;
     returned := returned g |}.

Definition set_phase (ph : load_phase) (g : module_state) : module_state :=
  {| dmViewerPromise := dmViewerPromise g; heap := heap g;
     loadScript_calls := loadScript_calls g; phase := ph;
     viewer_defined := viewer_defined g; clock := clock g;
     returned := returned g |}.

Definition timeout : Z := 10000.

(** [waitForDMViewer()] as awaited by the cached function: its promise has
    that one reader, so its settling is shown on the cached promise. *)
Definition waitForDMViewer (g : module_state) : module_state :=
  if viewer_defined g then settle Fulfilled g
  else set_phase (Polling (clock g)) g.

(** The callback of [setInterval(..., 100)]. *)
Definition checkInterval (startTime : Z) (g : module_state) : module_state :=
  if viewer_defined g then settle Fulfilled g
  else if bool_decide (clock g - startTime > timeout)%Z
       then settle (Rejected (Error "DM VideoViewer failed to load within timeout")) g
       else g.

(** [loadDMVideoViewer()]: the promise it returns and the new state.  The
    function is [async]: it returns a promise of its own, resolved with the
    cached one. *)
Definition loadDMVideoViewer (g : module_state) : nat * module_state :=
  let g1 :=
    match dmViewerPromise g with
    | Some _ => g
    | None =>
        (* the inner function runs up to [await loadScript(...)] *)
        {| dmViewerPromise := Some (length (heap g));
           heap := heap g ++ [Pending];
           loadScript_calls := loadScript_calls g ++ [DM_VIDEO_VIEWER_URL];
           phase := AwaitingScript;
           viewer_defined := viewer_defined g;
           clock := clock g;
           returned := returned g |}
    end in
  let q := length (heap g1) in
  (q, {| dmViewerPromise := dmViewerPromise g1;
         heap := heap g1 ++ [match dmViewerPromise g1 with
                             | Some p => ResolvedWith p
                             | None => Fulfilled
                             end];
         loadScript_calls := loadScript_calls g1;
         phase := phase g1;
         viewer_defined := viewer_defined g1;
         clock := clock g1;
         returned := returned g1 ++ [q] |}).

(** What can happen on the page, one turn of the event loop at a time. *)
Inductive event :=
| CallLoad                       (* a call of [loadDMVideoViewer()] *)
| ScriptLoaded                   (* the promise of [loadScript] fulfils *)
| ScriptFailed (e : js_error)    (* the promise of [loadScript] rejects *)
| ViewerDefined                  (* the script sets the global *)
| Elapse (ms : Z)                (* time passes *)
| IntervalFires.                 (* the polling callback runs *)

Definition step (g : module_state) (e : event) : module_state :=
  match e with
  | CallLoad => (loadDMVideoViewer g).2
  | ScriptLoaded =>
      match phase g with
      | AwaitingScript => waitForDMViewer g
      | _ => g
      end
  | ScriptFailed err =>
      match phase g with
      | AwaitingScript => settle (Rejected err) g
      | _ => g
      end
  | ViewerDefined =>
      {| dmViewerPromise := dmViewerPromise g; heap := heap g;
         loadScript_calls := loadScript_calls g; phase := phase g;
         viewer_defined := true; clock := clock g; returned := returned g |}
  | Elapse ms =>
      {| dmViewerPromise := dmViewerPromise g; heap := heap g;
         loadScript_calls := loadScript_calls g; phase := phase g;
         viewer_defined := viewer_defined g; clock := (clock g + ms)%Z;
         returned := returned g |}
  | IntervalFires =>
      match phase g with
      | Polling startTime => checkInterval startTime g
      | _ => g
      end
  end.

Definition run_events (g : module_state) (es : list event) : module_state :=
  foldl step g es.

(** How a promise has settled, looking through one [ResolvedWith]. *)
Definition settled_as (g : module_state) (q : nat) : option pstate :=
  match heap g !! q with
  | Some (ResolvedWith p) => heap g !! p
  | st => st
  end.

(* ===================================================================== *)
(** ** A concrete world and concrete blocks for the closed examples *)
(* ===================================================================== *)

Fixpoint span (keep : ascii -> bool) (s : string) : string * string :=
  match s with
  | EmptyString => (EmptyString, EmptyString)
  | String c s' =>
      if keep c then let r := span keep s' in (String c r.1, r.2)
      else (EmptyString, s)
  end.

Fixpoint after_last (x : ascii) (s : string) : option string :=
  match s with
  | EmptyString => None
  | String c s' =>
      match after_last x s' with
      | Some t => Some t
      | None => if Ascii.eqb c x then Some s' else None
      end
  end.

Fixpoint all_chars (ok : ascii -> bool) (s : string) : bool :=
  match s with
  | EmptyString => true
  | String c s' => ok c && all_chars ok s'
  end.

Definition is_alpha (c : ascii) : bool := between 65 90 c || between 97 122 c.
Definition is_digit (c : ascii) : bool := between 48 57 c.

Definition starts_with_letter (s : string) : bool :=
  match s with String c _ => is_alpha c | EmptyString => false end.

Definition ends_authority (c : ascii) : bool :=
  Ascii.eqb c "/" || Ascii.eqb c "?" || Ascii.eqb c "#" || Ascii.eqb c "\".

(** A fragment of the URL parser behind [new URL(s)]: scheme [http] or
    [https], then [//], optional credentials, a host made of letters, digits
    and dots whose last label starts with a letter, and an optional port of
    at most four digits.  Where it answers [Some u], the URL standard yields
    that protocol and host name.  It answers [None] on everything else, so
    the examples use it only where it answers [Some]. *)
Definition reference_URL (s : string) : option URL :=
  let '(scheme, r1) := span (fun c => negb (Ascii.eqb c ":")) s in
  let scheme := toLowerCase scheme in
  if negb (String.eqb scheme "http" || String.eqb scheme "https") then None
  else
    match strip_prefix_i "://" r1 with
    | Some r2 =>
        let authority := (span (fun c => negb (ends_authority c)) r2).1 in
        let hostport := default authority (after_last "@" authority) in
        let '(host, r3) := span (fun c => negb (Ascii.eqb c ":")) hostport in
        let port := match r3 with String _ p => p | EmptyString => EmptyString end in
        if all_chars (fun c => is_alpha c || is_digit c || Ascii.eqb c ".") host
           && starts_with_letter (default host (after_last "." host))
           && all_chars is_digit port
           && Nat.leb (String.length port) 4
        then Some {| protocol := scheme +:+ ":"; hostname := toLowerCase host |}
        else None
    | None => None
    end.

(** A fragment of [JSON.parse]: the four texts below, on which it is right.
    Every other text is rejected, which is right for the texts that are not
    JSON, the only other ones the examples use. *)
Definition reference_JSON (s : string) : option jsval :=
  if String.eqb s "null" then Some JNull
  else if String.eqb s "true" then Some (JBool true)
  else if String.eqb s "false" then Some (JBool false)
  else if String.eqb s "[]" then Some (JArr [])
  else None.

(** [ToString] on the empty array and on plain objects; the examples never
    convert a number or a non-empty array. *)
Definition reference_ToString (v : jsval) : attempt string :=
  match v with
  | JArr [] => Returns EmptyString
  | _ => Returns "[object Object]"
  end.

(** A viewer that constructs, starts and exposes a media handle accepting
    every listener. *)
Definition good_viewer : viewer :=
  {| init := Returns tt;
     getMediaPlayer :=
       Accessor (Returns (Some {| addEventListener := fun _ => Returns tt |})) |}.

(** A viewer whose media handle has no [addEventListener]. *)
Definition mute_viewer : viewer :=
  {| init := Returns tt;
     getMediaPlayer :=
       Accessor (Returns (Some {| addEventListener := fun _ =>
         Throws (TypeError "player.addEventListener is not a function") |})) |}.

Definition world_with (g : attempt unit) (v : viewer) : World :=
  {| gate := g;
     VideoViewer := Some (fun _ => Returns v);
     href_property := fun a => a;
     new_URL := reference_URL;
     JSON_parse := reference_JSON;
     ToString := reference_ToString;
     now := "1700000000000";
     random := "k3j9x0q2z" |}.

(** The page loaded the viewer script and the viewer behaves. *)
Definition good_world : World := world_with (Returns tt) good_viewer.

(** The viewer script never became ready. *)
Definition timed_out_world : World :=
  world_with (Throws (Error "DM VideoViewer failed to load within timeout"))
             good_viewer.

Definition div (kids : list node) : node := new_element "div" [] ∅ kids.
Definition para (s : string) : node := new_element "p" [] ∅ [Text s].
Definition anchor (url label : string) : node :=
  new_element "a" [] {[ "href" := url ]} [Text label].

(** A row as the editor writes it. *)
Definition row (content : node) : node := div [div [content]].

Definition sample_url : string :=
  "https://host/adobe/assets/urn:x:y/as/file.ext".

Definition block_of (data : gmap string string) (rows : list node) : block :=
  {| b_props := {| tag := "div"; attrs := data; classes := ["block"];
                   display := EmptyString |};
     b_kids := rows |}.

(** Rows [video, title, autoplay, loop, muted]. *)
Definition sample_rows (url : string) : list node :=
  [row (anchor url "video"); row (para "Title"); row (para "true");
   row (para "false"); row (para "true")].

Definition sample_block : block := block_of ∅ (sample_rows sample_url).

(** A block whose author left only text. *)
Definition linkless_block : block :=
  block_of ∅ [row (para "no video yet"); row (para "Title")].

(** The sample block with [data-chapters="null"]. *)
Definition null_chapters_block : block :=
  block_of {[ "data-chapters" := "null" ]} (sample_rows sample_url).

(** The sample block with a chapters attribute that is not JSON. *)
Definition broken_chapters_block : block :=
  block_of {[ "data-chapters" := "{oops" ]} (sample_rows sample_url).

(** [data-autoplay="false"] over a row 2 that says [true]. *)
Definition override_block : block :=
  block_of {[ "data-autoplay" := "false" ]} (sample_rows sample_url).

(** A link that is no Dynamic Media asset. *)
Definition foreign_block : block :=
  block_of ∅ (sample_rows "https://host/videos/clip.mp4").

(** Two links: the sample one, then another asset in the title row. *)
Definition two_link_block : block :=
  block_of ∅
    [row (anchor sample_url "video");
     row (anchor "https://other/adobe/assets/urn:z/as/b.mp4" "Title");
     row (para "true"); row (para "false"); row (para "true")].

(* ===================================================================== *)
(** ** Vocabulary of the statements *)
(* ===================================================================== *)

(** The successive values written to the marker. *)
Definition markers (tr : list effect) : list string :=
  omap (fun e => match e with SetMarker v => Some v | _ => None end) tr.

(** The configurations the viewer constructor was called with. *)
Definition constructions (tr : list effect) : list viewer_config :=
  omap (fun e => match e with NewViewer cfg => Some cfg | _ => None end) tr.

Definition returns {A} (a : attempt A) : bool :=
  match a with Returns _ => true | Throws _ => false end.

(** Whether [setupAnalytics] runs to its end on a viewer. *)
Definition wires (v : viewer) : bool :=
  match getMediaPlayer v with
  | NotAFunction => true
  | Accessor (Throws _) => false
  | Accessor (Returns None) => true
  | Accessor (Returns (Some p)) =>
      returns (addEventListener p "play") &&
      returns (addEventListener p "pause") &&
      returns (addEventListener p "ended") &&
      returns (addEventListener p "timeupdate")
  end.

(** Whether the constructor returns a viewer whose [init()] returns. *)
Definition constructs_and_inits (r : attempt viewer) : bool :=
  match r with
  | Returns v => returns (init v)
  | Throws _ => false
  end.

(** Whether the whole [try] block runs to its end. *)
Definition starts (r : attempt viewer) : bool :=
  match r with
  | Returns v => returns (init v) && wires v
  | Throws _ => false
  end.

Definition hidden (n : node) : Prop :=
  match n with
  | Elem p _ => display p = "none"
  | Text _ => True
  end.

(** A text contains the asset-identifier pattern: somewhere in it stands
    [/adobe/assets/urn:] in any letter case, followed by a character other
    than a slash. *)
Definition contains_asset_path (s : string) : Prop :=
  exists pre lit c post,
    s = pre +:+ lit +:+ String c post /\
    strip_prefix_i urn_prefix lit = Some EmptyString /\
    c <> "/"%char.

(** The derivation in the words of the specification: the origin is
    everything before the asset-identifier segment. *)
Definition spec_urls (videoUrl : string) : option media_urls :=
  match urn_exec videoUrl with
  | Some (i, assetPath) =>
      let origin := String.substring 0 i videoUrl in
      Some {| posterImageUrl :=
                origin +:+ assetPath +:+ "/as/thumbnail.jpeg?preferwebp=true";
              dashUrl := origin +:+ assetPath +:+ "/manifest.mpd";
              hlsUrl := origin +:+ assetPath +:+ "/manifest.m3u8" |}
  | None => None
  end.

(** The derivation as [decorate] performs it on a link target. *)
Definition code_urls (w : World) (videoUrl : string) : option media_urls :=
  match urn_match videoUrl with
  | Some assetIdPath =>
      match new_URL w videoUrl with
      | Some videoURLObj => Some (derive_urls videoURLObj assetIdPath)
      | None => None
      end
  | None => None
  end.

(** The page once [decorate] has added its class to the block. *)
Definition entered (b : block) : page :=
  {| blk := {| b_props := add_class "dynamic-media-video" (b_props b);
               b_kids := b_kids b |};
     trace := [] |}.

(** The target of the first link of a block. *)
Definition first_link_url (w : World) (b : block) : option string :=
  (fun link => href_property w (href_attr link)) <$> head (videoLinks b).

(** The configuration [build] hands to the player, from the parsed URL. *)
Definition built_config (w : World) (u : URL) (m : string) (s : page)
  : viewer_config :=
  let p := ensure_id w (b_props (blk s)) in
  {| containerId := block_id p +:+ "-player";
     params := make_params (derive_urls u m)
                 (read_flags {| b_props := p; b_kids := b_kids (blk s) |}) |}.

(** The invariant of one threshold [m] along a tick: once [m] is in the
    set it stays there and is not reported; otherwise it is reported at
    most once, and then it is in the set. *)
Definition tick_inv (m : float) (was_hit : bool)
    (st : list float * list analytics_call) : Prop :=
  if was_hit then set_has st.1 m = true /\ times_reported m st.2 = 0
  else times_reported m st.2 = 0 \/
       (times_reported m st.2 = 1 /\ set_has st.1 m = true).

(** What holds of the module state after any sequence of events: one
    script request at most, and every promise handed out is a distinct
    promise resolved with the cached one. *)
Definition gate_inv (g : module_state) : Prop :=
  NoDup (returned g) /\
  Forall (fun q => q < length (heap g)) (returned g) /\
  match dmViewerPromise g with
  | None =>
      loadScript_calls g = [] /\ returned g = [] /\ phase g = Idle
  | Some p =>
      loadScript_calls g = [DM_VIDEO_VIEWER_URL] /\
      p < length (heap g) /\
      Forall (fun q => p < q /\ heap g !! q = Some (ResolvedWith p))
             (returned g)
  end.

(* ===================================================================== *)
(** * Milestone tracking *)
(* ===================================================================== *)

Section Milestones.
Variable assetIdPath : string.

Lemma set_has_app hit a m :
  set_has (hit ++ [a]) m = set_has hit m || same_value_zero m a.
Proof.
  unfold set_has. rewrite existsb_app. simpl. by rewrite orb_false_r.
Qed.

Lemma times_reported_app m l1 l2 :
  times_reported m (l1 ++ l2) = times_reported m l1 + times_reported m l2.
Proof. unfold times_reported. by rewrite filter_app, List.length_app. Qed.

Lemma milestone_cases m :
  m ∈ milestones -> m = 0.25%float \/ m = 0.5%float \/ m = 0.75%float.
Proof.
  unfold milestones. rewrite !elem_of_cons, elem_of_nil. tauto.
Qed.

(** On the three thresholds a call reports [m] exactly when it was made
    for [m]. *)
Lemma reports_milestone_call m m' :
  m ∈ milestones -> m' ∈ milestones ->
  reports m (milestone_call assetIdPath m') = same_value_zero m m'.
Proof.
  intros Hm Hm'.
  destruct (milestone_cases _ Hm) as [-> | [-> | ->]];
    destruct (milestone_cases _ Hm') as [-> | [-> | ->]];
    vm_compute; reflexivity.
Qed.

Lemma same_value_zero_refl m : m ∈ milestones -> same_value_zero m m = true.
Proof.
  intros Hm. destruct (milestone_cases _ Hm) as [-> | [-> | ->]];
    vm_compute; reflexivity.
Qed.

Lemma times_reported_one m c :
  times_reported m [c] = if reports m c then 1 else 0.
Proof.
  unfold times_reported. rewrite filter_cons, filter_nil.
  destruct (decide (reports m c = true)) as [-> | Hno]; [reflexivity|].
  destruct (reports m c); [congruence | reflexivity].
Qed.

Lemma visit_inv m was_hit progress st m' :
  m ∈ milestones -> m' ∈ milestones ->
  tick_inv m was_hit st -> tick_inv m was_hit (visit assetIdPath progress st m').
Proof.
  intros Hm Hm' Hinv. unfold visit.
  destruct (PrimFloat.leb m' progress && negb (set_has st.1 m')) eqn:Hfire;
    [|assumption].
  apply andb_true_iff in Hfire as [_ Hfresh].
  apply negb_true_iff in Hfresh.
  unfold tick_inv in *. cbn [fst snd].
  rewrite set_has_app, times_reported_app, times_reported_one,
    reports_milestone_call by assumption.
  destruct (same_value_zero m m') eqn:Hsame.
  - (* the threshold fired is [m] itself: it was not in the set *)
    assert (m = m') as <-.
    { destruct (milestone_cases _ Hm) as [-> | [-> | ->]];
        destruct (milestone_cases _ Hm') as [-> | [-> | ->]];
        try reflexivity; vm_compute in Hsame; discriminate. }
    destruct was_hit.
    + destruct Hinv as [Hin _]. congruence.
    + destruct Hinv as [H0 | [_ Hin]]; [|congruence].
      right. rewrite H0, orb_true_r. auto.
  - rewrite orb_false_r, Nat.add_0_r. exact Hinv.
Qed.

Lemma foldl_visit_inv m was_hit progress ms st :
  m ∈ milestones -> Forall (fun m' => m' ∈ milestones) ms ->
  tick_inv m was_hit st ->
  tick_inv m was_hit (foldl (visit assetIdPath progress) st ms).
Proof.
  intros Hm Hms. revert st.
  induction Hms as [|m' ms Hm' _ IH]; intros st Hinv; simpl; [assumption|].
  apply IH. by apply visit_inv.
Qed.

Lemma on_timeupdate_inv m hit t :
  m ∈ milestones ->
  tick_inv m (set_has hit m) (on_timeupdate assetIdPath hit t).
Proof.
  intros Hm. unfold on_timeupdate.
  assert (tick_inv m (set_has hit m) (hit, [])) as Hstart.
  { unfold tick_inv. cbn [fst snd].
    destruct (set_has hit m); [split|left]; reflexivity. }
  destruct (negb (number_truthy (or_zero (duration t)))); [assumption|].
  apply foldl_visit_inv; [assumption| |assumption].
  apply Forall_forall. auto.
Qed.

(** From any set of hit thresholds, a threshold is reported at most once
    over all later ticks, and never if it is in the set already. *)
Lemma ticks_from_at_most_once m ticks : forall hit,
  m ∈ milestones ->
  times_reported m (concat (ticks_from assetIdPath hit ticks))
    <= (if set_has hit m then 0 else 1).
Proof.
  induction ticks as [|t rest IH]; intros hit Hm; simpl.
  - destruct (set_has hit m); unfold times_reported; simpl; lia.
  - rewrite times_reported_app.
    pose proof (on_timeupdate_inv m hit t Hm) as Hinv.
    specialize (IH (on_timeupdate assetIdPath hit t).1 Hm).
    unfold tick_inv in Hinv.
    destruct (set_has hit m).
    + destruct Hinv as [Hin H0]. rewrite Hin in IH. lia.
    + destruct Hinv as [H0 | [H1 Hin]].
      * destruct (set_has _ m) in IH; lia.
      * rewrite Hin in IH. lia.
Qed.

(** What one tick does: it appends to the set, in the order of the
    [milestones] array, the thresholds it reports. *)
Lemma foldl_visit_sublist progress ms : forall st,
  exists fired,
    fired `sublist_of` ms /\
    foldl (visit assetIdPath progress) st ms
    = (st.1 ++ fired, st.2 ++ map (milestone_call assetIdPath) fired).
Proof.
  induction ms as [|m ms IH]; intros [hit calls]; simpl.
  - exists []. rewrite !app_nil_r. split; [constructor | reflexivity].
  - unfold visit at 2. cbn [fst snd].
    destruct (PrimFloat.leb m progress && negb (set_has hit m)).
    + destruct (IH (hit ++ [m], calls ++ [milestone_call assetIdPath m]))
        as (fired & Hsub & ->).
      exists (m :: fired). split; [by constructor|].
      cbn [fst snd map]. by rewrite <- !app_assoc.
    + destruct (IH (hit, calls)) as (fired & Hsub & ->).
      exists fired. split; [by constructor | reflexivity].
Qed.

Lemma sublist_ascending (ms l : list float) :
  ms `sublist_of` l -> ascending l -> ascending ms.
Proof.
  unfold ascending. induction 1 as [|x l1 l2 Hsub IH|x l1 l2 Hsub IH];
    intros Hl; [constructor| |].
  - apply StronglySorted_inv in Hl as [Hl Hx].
    constructor; [auto|].
    rewrite Forall_forall in *. intros y Hy.
    apply Hx. by eapply elem_of_sublist.
  - apply StronglySorted_inv in Hl as [Hl _]. auto.
Qed.

Lemma milestones_ascending : ascending milestones.
Proof.
  unfold ascending, milestones.
  repeat (constructor; [|repeat constructor; vm_compute; reflexivity]).
  constructor.
Qed.

(** Every call leaves exactly one record, in exactly one of the sinks. *)
Lemma fireAnalyticsEvent_one_record c s :
  length (default [] (adobeDataLayer (fireAnalyticsEvent c s)))
  + length (console_debug (fireAnalyticsEvent c s))
  = S (length (default [] (adobeDataLayer s)) + length (console_debug s)).
Proof.
  unfold fireAnalyticsEvent.
  destruct (adobeDataLayer s) as [layer|]; simpl;
    rewrite List.length_app; simpl; lia.
Qed.

Lemma unknown_duration_falsy (d : option float) :
  d = None \/
  (exists x, d = Some x /\
     (PrimFloat.is_nan x = true \/ PrimFloat.eqb x 0 = true)) ->
  number_truthy (or_zero d) = false.
Proof.
  intros [-> | (x & -> & Hx)]; [reflexivity|].
  unfold or_zero. destruct (number_truthy x) eqn:Ht; [|reflexivity].
  unfold number_truthy in Ht. apply negb_true_iff, orb_false_iff in Ht.
  destruct Ht, Hx; congruence.
Qed.
End Milestones.

(** C3: over any sequence of [timeupdate] ticks of a playback session,
    whatever duration and current time each tick reports, each of the
    thresholds 0.25, 0.5 and 0.75 is reported at most once; the thresholds
    reported on one tick are reported in ascending order; and a tick whose
    duration is undefined, [NaN] or zero reports nothing and leaves the set
    of hit thresholds as it is. *)
Theorem milestones_single_shot (assetIdPath : string) (ticks : list tick)
    (m : float) (Hm : m ∈ milestones) :
  times_reported m (concat (session assetIdPath ticks)) <= 1 /\
  (forall hit t, exists fired,
      ascending fired /\ fired `sublist_of` milestones /\
      (on_timeupdate assetIdPath hit t).2
      = map (milestone_call assetIdPath) fired) /\
  (forall hit t,
      duration t = None \/
      (exists x, duration t = Some x /\
         (PrimFloat.is_nan x = true \/ PrimFloat.eqb x 0 = true)) ->
      on_timeupdate assetIdPath hit t = (hit, [])).
Proof.
  split; [|split].
  - pose proof (ticks_from_at_most_once assetIdPath m ticks [] Hm) as H.
    exact H.
  - intros hit t. unfold on_timeupdate.
    destruct (negb (number_truthy (or_zero (duration t)))).
    + exists []. repeat split; [constructor | apply sublist_nil_l].
    + destruct (foldl_visit_sublist assetIdPath
                  (or_zero (currentTime t) / or_zero (duration t))%float
                  milestones (hit, [])) as (fired & Hsub & ->).
      exists fired. repeat split; [|assumption].
      eapply sublist_ascending; [exact Hsub | apply milestones_ascending].
  - intros hit t Hd. unfold on_timeupdate.
    by rewrite (unknown_duration_falsy _ Hd).
Qed.

Lemma milestones_single_shot_witness :
  0.5%float ∈ milestones /\
  times_reported 0.5
    (concat (session "/adobe/assets/urn:x:y"
       [mkTick (Some 100) (Some 10); mkTick (Some 100) (Some 80);
        mkTick (Some 100) (Some 80); mkTick (Some 0) (Some 90);
        mkTick (Some 100) (Some 20)]%float)) <= 1.
Proof.
  assert (0.5%float ∈ milestones) as Hm.
  { unfold milestones. apply elem_of_cons. right. apply elem_of_cons. by left. }
  split; [exact Hm|].
  exact (proj1 (milestones_single_shot "/adobe/assets/urn:x:y" _ _ Hm)).
Defined.

(* ===================================================================== *)
(** * The script-readiness gate *)
(* ===================================================================== *)

Section Gate.

Lemma run_events_app g es es' :
  run_events g (es ++ es') = run_events (run_events g es) es'.
Proof. apply foldl_app. Qed.

Lemma gate_inv_initial : gate_inv initial.
Proof.
  unfold gate_inv, initial; simpl.
  repeat split; constructor.
Qed.

(** Settling touches the cached promise only. *)
Lemma gate_inv_settle st g :
  phase g <> Idle -> gate_inv g -> gate_inv (settle st g).
Proof.
  intros Hph (Hnd & Hlt & Hc). unfold gate_inv, settle; simpl.
  revert Hc. destruct (dmViewerPromise g) as [p|];
    [|intros (? & ? & ?); congruence].
  intros (Hreq & Hp & Hret).
  rewrite length_insert. repeat split; try assumption.
  eapply Forall_impl; [exact Hret|]. simpl. intros q [Hpq Hq].
  split; [assumption|]. rewrite list_lookup_insert_ne by lia. exact Hq.
Qed.

Lemma gate_inv_set_phase ph g :
  phase g <> Idle -> gate_inv g -> gate_inv (set_phase ph g).
Proof.
  intros Hph (Hnd & Hlt & Hc). unfold gate_inv, set_phase; simpl.
  revert Hc. destruct (dmViewerPromise g) as [p|];
    [|intros (? & ? & ?); congruence].
  intros Hc. repeat split; try assumption; apply Hc.
Qed.

Lemma gate_inv_call g : gate_inv g -> gate_inv (loadDMVideoViewer g).2.
Proof.
  intros (Hnd & Hlt & Hc). unfold gate_inv, loadDMVideoViewer.
  revert Hc.
  destruct (dmViewerPromise g) as [p|] eqn:Hp; intros Hc; cbn [snd fst
    dmViewerPromise heap loadScript_calls phase returned].
  - destruct Hc as (Hreq & Hpl & Hret).
    rewrite ?Hp, List.length_app. simpl.
    repeat split.
    + apply NoDup_app. repeat split; [assumption| |apply NoDup_singleton].
      intros q Hq Hq'. apply list_elem_of_singleton in Hq'.
      rewrite Forall_forall in Hlt. specialize (Hlt q Hq). lia.
    + apply Forall_app. split.
      * eapply Forall_impl; [exact Hlt|]. simpl. lia.
      * repeat constructor. lia.
    + assumption.
    + lia.
    + apply Forall_app. split.
      * eapply Forall_impl; [exact Hret|]. simpl. intros q [Hpq Hq].
        split; [assumption|]. by apply lookup_app_l_Some.
      * repeat constructor; [assumption|].
        by rewrite list_lookup_middle.
  - destruct Hc as (Hreq & Hret & Hph). rewrite Hreq, Hret.
    rewrite !List.length_app. simpl.
    repeat split.
    + apply NoDup_singleton.
    + repeat constructor. lia.
    + lia.
    + repeat constructor; [lia|].
      rewrite list_lookup_middle; [reflexivity|].
      rewrite List.length_app. simpl. lia.
Qed.

Lemma gate_inv_step g e : gate_inv g -> gate_inv (step g e).
Proof.
  intros Hinv. destruct e; simpl.
  - by apply gate_inv_call.
  - destruct (phase g) eqn:Hph; try assumption.
    unfold waitForDMViewer. destruct (viewer_defined g).
    + apply gate_inv_settle; [congruence | assumption].
    + apply gate_inv_set_phase; [congruence | assumption].
  - destruct (phase g) eqn:Hph; try assumption.
    apply gate_inv_settle; [congruence | assumption].
  - exact Hinv.
  - exact Hinv.
  - destruct (phase g) eqn:Hph; try assumption.
    unfold checkInterval. destruct (viewer_defined g).
    + apply gate_inv_settle; [congruence | assumption].
    + case_bool_decide; [|assumption].
      apply gate_inv_settle; [congruence | assumption].
Qed.

Lemma gate_inv_run es : forall g, gate_inv g -> gate_inv (run_events g es).
Proof.
  induction es as [|e es IH]; intros g Hinv; simpl; [assumption|].
  apply IH. by apply gate_inv_step.
Qed.

(** No event replaces or clears a cached promise. *)
Lemma cached_step g e p :
  dmViewerPromise g = Some p -> dmViewerPromise (step g e) = Some p.
Proof.
  intros Hp. destruct e; simpl; try assumption.
  - unfold loadDMVideoViewer. by rewrite Hp.
  - destruct (phase g); try assumption.
    unfold waitForDMViewer. by destruct (viewer_defined g).
  - by destruct (phase g).
  - destruct (phase g); try assumption.
    unfold checkInterval. destruct (viewer_defined g); [assumption|].
    by case_bool_decide.
Qed.

Lemma cached_run es : forall g p,
  dmViewerPromise g = Some p -> dmViewerPromise (run_events g es) = Some p.
Proof.
  induction es as [|e es IH]; intros g p Hp; simpl; [assumption|].
  apply IH. by apply cached_step.
Qed.

(** Only a call fills the cache. *)
Lemma uncached_run es : forall g,
  dmViewerPromise g = None -> CallLoad ∉ es ->
  dmViewerPromise (run_events g es) = None.
Proof.
  induction es as [|e es IH]; intros g Hg Hno; simpl; [assumption|].
  apply not_elem_of_cons in Hno as [Hne Hno].
  apply IH; [|assumption].
  destruct e; simpl; try assumption; try congruence.
  - destruct (phase g); try assumption.
    unfold waitForDMViewer. by destruct (viewer_defined g).
  - by destruct (phase g).
  - destruct (phase g); try assumption.
    unfold checkInterval. destruct (viewer_defined g); [assumption|].
    by case_bool_decide.
Qed.
End Gate.

(** C4, as the code has it: over any sequence of events of the page, from
    the first call on [dmViewerPromise] holds one promise that no later
    event replaces or clears, and it is empty before the first call; at most
    one request is ever made to [loadScript]; and every call returns a
    promise of its own (no two calls return the same one, none returns the
    cached one) that is resolved with the cached promise, so that all of
    them settle alike. *)
Theorem gate_one_shot (es : list event) :
  let g := run_events initial es in
  length (loadScript_calls g) <= 1 /\
  (CallLoad ∉ es -> dmViewerPromise g = None) /\
  (forall p es', dmViewerPromise g = Some p ->
     dmViewerPromise (run_events g es') = Some p) /\
  NoDup (returned g) /\
  (forall q, q ∈ returned g ->
     exists p, dmViewerPromise g = Some p /\ q <> p /\
               heap g !! q = Some (ResolvedWith p) /\
               settled_as g q = heap g !! p).
Proof.
  intros g.
  pose proof (gate_inv_run es initial gate_inv_initial) as (Hnd & Hlt & Hc).
  fold g in Hnd, Hlt, Hc.
  split; [|split; [|split; [|split]]].
  - revert Hc. destruct (dmViewerPromise g); intros (-> & _); simpl; lia.
  - intros Hno. by apply uncached_run.
  - intros p es' Hp. by apply cached_run.
  - exact Hnd.
  - intros q Hq. revert Hc. destruct (dmViewerPromise g) as [p|]; intros Hc.
    + destruct Hc as (_ & _ & Hret).
      rewrite Forall_forall in Hret. destruct (Hret q Hq) as [Hpq Hheap].
      exists p. repeat split; [lia | assumption|].
      unfold settled_as. by rewrite Hheap.
    + destruct Hc as (_ & Hret & _). rewrite Hret in Hq.
      by apply elem_of_nil in Hq.
Qed.

Lemma gate_one_shot_witness :
  let g := run_events initial
             [CallLoad; CallLoad; ScriptLoaded; Elapse 100; ViewerDefined;
              IntervalFires; CallLoad] in
  length (loadScript_calls g) <= 1 /\
  dmViewerPromise g = Some 0 /\
  returned g = [1; 2; 3] /\
  settled_as g 1 = Some Fulfilled /\
  settled_as g 3 = Some Fulfilled.
Proof.
  intros g.
  split; [exact (proj1 (gate_one_shot _))|].
  vm_compute. repeat split.
Defined.

(** C4, counterexample to the claim as stated: two calls in a row do not
    return the very same promise, and neither returns the cached one. *)
Lemma calls_return_distinct_promises :
  let first := loadDMVideoViewer initial in
  let second := loadDMVideoViewer first.2 in
  first.1 <> second.1 /\
  dmViewerPromise second.2 <> Some first.1 /\
  dmViewerPromise second.2 <> Some second.1.
Proof. vm_compute. repeat split; discriminate. Qed.

(* ===================================================================== *)
(** * The asset-identifier pattern and URL derivation *)
(* ===================================================================== *)

Lemma append_cons (x : ascii) (a b : string) :
  String x a +:+ b = String x (a +:+ b).
Proof. reflexivity. Qed.

Lemma append_nil_l (b : string) : EmptyString +:+ b = b.
Proof. reflexivity. Qed.

Ltac str_simpl := simpl; rewrite ?append_nil_l, ?append_cons; simpl.

Section Pattern.

Lemma append_assoc (a b c : string) : (a +:+ b) +:+ c = a +:+ b +:+ c.
Proof. induction a as [|x a IH]; str_simpl; [reflexivity | by rewrite IH]. Qed.

Lemma length_append (a b : string) :
  String.length (a +:+ b) = String.length a + String.length b.
Proof. induction a as [|x a IH]; str_simpl; [reflexivity | by rewrite IH]. Qed.

Lemma substring_prefix (a b : string) :
  String.substring 0 (String.length a) (a +:+ b) = a.
Proof.
  induction a as [|x a IH]; str_simpl; [by destruct b | by rewrite IH].
Qed.

(** What [strip_prefix_i] consumed is a case variant of the pattern. *)
Lemma strip_prefix_i_split p : forall s rest,
  strip_prefix_i p s = Some rest ->
  exists lit, s = lit +:+ rest /\
              String.length lit = String.length p /\
              strip_prefix_i p lit = Some EmptyString.
Proof.
  induction p as [|a p IH]; intros s rest; simpl.
  - intros [= ->]. by exists EmptyString.
  - destruct s as [|b s]; [discriminate|].
    destruct (Ascii.eqb (canonicalize a) (canonicalize b)) eqn:Hab;
      [|discriminate].
    intros (lit & -> & Hlen & Hlit)%IH.
    exists (String b lit). str_simpl. rewrite Hab, Hlen. auto.
Qed.

Lemma strip_prefix_i_app p : forall lit rest,
  strip_prefix_i p lit = Some EmptyString ->
  strip_prefix_i p (lit +:+ rest) = Some rest.
Proof.
  induction p as [|a p IH]; intros lit rest; simpl.
  - by intros [= ->].
  - destruct lit as [|b lit]; [discriminate|]. str_simpl.
    destruct (Ascii.eqb (canonicalize a) (canonicalize b)); [|discriminate].
    apply IH.
Qed.

Lemma non_slash_run_split s :
  exists post, s = non_slash_run s +:+ post /\
               (post = EmptyString \/ exists t, post = String "/" t).
Proof.
  induction s as [|c s (post & Hs & Hpost)]; simpl.
  - exists EmptyString. auto.
  - destruct (Ascii.eqb c "/") eqn:Hc.
    + apply Ascii.eqb_eq in Hc as ->. exists (String "/" s). eauto.
    + exists post. str_simpl. rewrite <- Hs. auto.
Qed.

Lemma non_slash_run_free s : all_chars (fun c => negb (Ascii.eqb c "/"))
                               (non_slash_run s) = true.
Proof.
  induction s as [|c s IH]; simpl; [reflexivity|].
  destruct (Ascii.eqb c "/") eqn:Hc; simpl; [reflexivity|].
  by rewrite Hc, IH.
Qed.

(** A match at the start of [s]: a case variant of the literal, then a
    non-empty run without slash that ends at a slash or at the end. *)
Lemma match_here_sound s m :
  match_here s = Some m ->
  exists lit c run post,
    m = lit +:+ String c run /\ s = m +:+ post /\
    strip_prefix_i urn_prefix lit = Some EmptyString /\
    c <> "/"%char /\
    all_chars (fun c => negb (Ascii.eqb c "/")) run = true /\
    (post = EmptyString \/ exists t, post = String "/" t).
Proof.
  unfold match_here.
  destruct (strip_prefix_i urn_prefix s) as [rest|] eqn:Hstrip; [|discriminate].
  destruct (strip_prefix_i_split _ _ _ Hstrip) as (lit & -> & Hlen & Hlit).
  destruct (non_slash_run rest) as [|c run] eqn:Hrun; [discriminate|].
  destruct (non_slash_run_split rest) as (post & Hrest & Hpost).
  pose proof (non_slash_run_free rest) as Hfree.
  rewrite Hrun in Hrest, Hfree.
  assert (String.substring 0
            (String.length urn_prefix + String.length (String c run))
            (lit +:+ rest) = lit +:+ String c run) as ->.
  { rewrite Hrest, <- (append_assoc lit (String c run) post).
    rewrite <- Hlen, <- length_append. apply substring_prefix. }
  cbn [nonempty]. intros [= <-].
  exists lit, c, run, post. simpl in Hfree.
  apply andb_true_iff in Hfree as [Hc Hfree].
  repeat split; try assumption.
  - by rewrite append_assoc, <- Hrest.
  - intros ->. discriminate.
Qed.

Lemma match_here_complete lit c post :
  strip_prefix_i urn_prefix lit = Some EmptyString -> c <> "/"%char ->
  is_Some (match_here (lit +:+ String c post)).
Proof.
  intros Hlit Hc. unfold match_here.
  rewrite (strip_prefix_i_app _ _ _ Hlit). simpl.
  destruct (Ascii.eqb c "/") eqn:E; [by apply Ascii.eqb_eq in E|].
  simpl. eauto.
Qed.

(** The match found is the text at index [i]. *)
Lemma urn_exec_sound s : forall i m,
  urn_exec s = Some (i, m) ->
  exists post,
    s = String.substring 0 i s +:+ m +:+ post /\
    match_here (m +:+ post) = Some m.
Proof.
  induction s as [|c s IH]; intros i m.
  - intros H. vm_compute in H. discriminate.
  - cbn [urn_exec]. destruct (match_here (String c s)) as [m'|] eqn:Hm.
    + intros [= <- <-].
      destruct (match_here_sound _ _ Hm) as (? & ? & ? & post & _ & Hs & _).
      exists post. str_simpl. by rewrite <- Hs.
    + destruct (urn_exec s) as [[j m']|]; [|discriminate].
      intros [= <- <-].
      destruct (IH j m' eq_refl) as (post & Hs & Hhere).
      exists post. str_simpl. by rewrite <- Hs.
Qed.

Lemma urn_exec_here s m :
  match_here s = Some m -> urn_exec s = Some (0, m).
Proof. destruct s; cbn [urn_exec]; intros ->; reflexivity. Qed.

Lemma urn_exec_complete pre : forall lit c post,
  strip_prefix_i urn_prefix lit = Some EmptyString -> c <> "/"%char ->
  is_Some (urn_exec (pre +:+ lit +:+ String c post)).
Proof.
  induction pre as [|a pre IH]; intros lit c post Hlit Hc.
  - rewrite append_nil_l.
    destruct (match_here_complete lit c post Hlit Hc) as [m Hm].
    rewrite (urn_exec_here _ _ Hm). eauto.
  - rewrite append_cons. cbn [urn_exec]. destruct (match_here _); [eauto|].
    destruct (IH lit c post Hlit Hc) as [[j m] ->]. eauto.
Qed.

(** The pattern fails exactly on the texts that do not contain it. *)
Lemma urn_match_None_iff s :
  urn_match s = None <-> ~ contains_asset_path s.
Proof.
  unfold urn_match. split.
  - intros Hnone (pre & lit & c & post & -> & Hlit & Hc).
    destruct (urn_exec_complete pre lit c post Hlit Hc) as [x Hx].
    rewrite Hx in Hnone. discriminate.
  - intros Hno. destruct (urn_exec s) as [[i m]|] eqn:Hexec; [|reflexivity].
    exfalso. apply Hno.
    destruct (urn_exec_sound _ _ _ Hexec) as (post & Hs & Hhere).
    destruct (match_here_sound _ _ Hhere)
      as (lit & c & run & _ & -> & _ & Hlit & Hc & _).
    exists (String.substring 0 i s), lit, c, (run +:+ post).
    repeat split; try assumption.
    rewrite Hs at 1. f_equal. by rewrite append_assoc.
Qed.
End Pattern.

(** C1, as the code has it: for a source URL in which the pattern matches
    and that [new URL] accepts, the poster, DASH and HLS URLs are the URL's
    protocol, [//] and host name (so without port, credentials or leading
    path), then the matched asset path, then the fixed suffix; the asset
    path is the text matched in the URL; and whenever the text before the
    match is exactly protocol, [//] and host name, the three URLs are what
    the specification says: everything before the asset segment, the asset
    path and the suffix. *)
Theorem url_derivation (w : World) (videoUrl : string) (i : nat)
    (assetIdPath : string) (u : URL)
    (Hmatch : urn_exec videoUrl = Some (i, assetIdPath))
    (Hurl : new_URL w videoUrl = Some u) :
  code_urls w videoUrl
  = Some {| posterImageUrl :=
              protocol u +:+ "//" +:+ hostname u +:+ assetIdPath
                +:+ "/as/thumbnail.jpeg?preferwebp=true";
            dashUrl :=
              protocol u +:+ "//" +:+ hostname u +:+ assetIdPath
                +:+ "/manifest.mpd";
            hlsUrl :=
              protocol u +:+ "//" +:+ hostname u +:+ assetIdPath
                +:+ "/manifest.m3u8" |} /\
  (exists post,
      videoUrl = String.substring 0 i videoUrl +:+ assetIdPath +:+ post) /\
  (String.substring 0 i videoUrl = protocol u +:+ "//" +:+ hostname u ->
   code_urls w videoUrl = spec_urls videoUrl).
Proof.
  assert (forall suffix,
    baseUrl u +:+ assetIdPath +:+ suffix
    = protocol u +:+ "//" +:+ hostname u +:+ assetIdPath +:+ suffix) as Hbase.
  { intros suffix. unfold baseUrl. by rewrite !append_assoc. }
  assert (code_urls w videoUrl = Some (derive_urls u assetIdPath)) as Hcode.
  { unfold code_urls, urn_match. rewrite Hmatch. simpl. by rewrite Hurl. }
  split; [|split].
  - rewrite Hcode. unfold derive_urls. by rewrite !Hbase.
  - destruct (urn_exec_sound _ _ _ Hmatch) as (post & Hs & _). eauto.
  - intros Horigin. rewrite Hcode. unfold spec_urls, derive_urls.
    rewrite Hmatch, Horigin. by rewrite !Hbase.
Qed.

Lemma url_derivation_witness :
  urn_exec sample_url = Some (12, "/adobe/assets/urn:x:y") /\
  new_URL good_world sample_url = Some (mkURL "https:" "host") /\
  code_urls good_world sample_url
  = Some {| posterImageUrl :=
              "https://host/adobe/assets/urn:x:y/as/thumbnail.jpeg?preferwebp=true";
            dashUrl := "https://host/adobe/assets/urn:x:y/manifest.mpd";
            hlsUrl := "https://host/adobe/assets/urn:x:y/manifest.m3u8" |}.
Proof.
  assert (urn_exec sample_url = Some (12, "/adobe/assets/urn:x:y")) as Hm
    by (vm_compute; reflexivity).
  assert (new_URL good_world sample_url = Some (mkURL "https:" "host")) as Hu
    by (vm_compute; reflexivity).
  split; [exact Hm|]. split; [exact Hu|].
  exact (proj1 (url_derivation good_world sample_url _ _ _ Hm Hu)).
Defined.

(** C1, counterexample to the claim as stated: with a port in the source
    URL, the text before the asset segment is [https://host:8443], but the
    derived URLs start with [https://host]. *)
Lemma port_is_not_part_of_base :
  let videoUrl := "https://host:8443/adobe/assets/urn:x:y/as/file.ext" in
  urn_exec videoUrl = Some (17, "/adobe/assets/urn:x:y") /\
  String.substring 0 17 videoUrl = "https://host:8443" /\
  (dashUrl <$> code_urls good_world videoUrl)
  = Some "https://host/adobe/assets/urn:x:y/manifest.mpd" /\
  (dashUrl <$> spec_urls videoUrl)
  = Some "https://host:8443/adobe/assets/urn:x:y/manifest.mpd" /\
  code_urls good_world videoUrl <> spec_urls videoUrl.
Proof. vm_compute. repeat split; discriminate. Qed.

(* ===================================================================== *)
(** * Decoration *)
(* ===================================================================== *)

Ltac mstep :=
  unfold mbind, M_bind, bind, mret, M_ret, ret, throw, set_marker,
    console_error, emit, update_props, update_kids, update_block, get_block,
    appendChild, lift;
  simpl.

Lemma marker_set_attr v p kids :
  marker {| b_props := set_attr marker_attr v p; b_kids := kids |} = Some v.
Proof. unfold marker, set_attr. simpl. apply lookup_insert_eq. Qed.

Lemma markers_app l1 l2 : markers (l1 ++ l2) = markers l1 ++ markers l2.
Proof. apply omap_app. Qed.

Lemma constructions_app l1 l2 :
  constructions (l1 ++ l2) = constructions l1 ++ constructions l2.
Proof. apply omap_app. Qed.

Section Decoration.
Variable w : World.

(** Analytics wiring leaves the block alone and writes no marker; it runs
    to its end exactly on the viewers that [wires] accepts. *)
Lemma setupAnalytics_spec v a hc s :
  exists mid,
    trace (setupAnalytics v a hc s).2 = trace s ++ mid /\
    blk (setupAnalytics v a hc s).2 = blk s /\
    markers mid = [] /\ constructions mid = [] /\
    if wires v then (setupAnalytics v a hc s).1 = Done tt
    else exists e, (setupAnalytics v a hc s).1 = Raised e.
Proof.
  unfold setupAnalytics, wires, listen.
  destruct (getMediaPlayer v) as [|[[p|]|e]]; mstep.
  - exists []. by rewrite app_nil_r.
  - destruct (addEventListener p "play"),
             (addEventListener p "pause"),
             (addEventListener p "ended"),
             (addEventListener p "timeupdate"), hc; mstep;
      eexists; (split; [rewrite <- ?app_assoc; reflexivity|]);
      repeat split; eauto.
  - eexists. split; [reflexivity|]. repeat split.
  - eexists. split; [reflexivity|]. repeat split. eauto.
Qed.

(** The final [try] block never lets an exception out; the marker goes
    to [loading] just before the constructor is called, and from there to
    [true] or to [error]. *)
Lemma start_player_spec ctor cfg a hc s :
  let r := start_player ctor cfg a hc s in
  let final := if starts (ctor cfg) then "true" else "error" in
  r.1 = Done tt /\
  (exists mid,
      trace r.2 = trace s ++ SetMarker "loading" :: NewViewer cfg :: mid /\
      markers mid = [final] /\ constructions mid = []) /\
  marker (blk r.2) = Some final /\
  b_kids (blk r.2) = b_kids (blk s).
Proof.
  unfold start_player, try_catch, starts.
  destruct (ctor cfg) as [v|e]; mstep.
  - destruct (init v) as [[]|e]; mstep.
    + match goal with |- context [setupAnalytics v a hc ?s1] =>
        destruct (setupAnalytics_spec v a hc s1)
          as (mid & Htr & Hblk & Hm & Hc & Hout);
        destruct (setupAnalytics v a hc s1) as [o s2] end.
      simpl in Htr, Hblk, Hout. destruct s2 as [b2 tr2]. simpl in *.
      subst b2 tr2.
      destruct (wires v).
      * subst o. mstep. repeat split.
        -- eexists. split; [rewrite <- !app_assoc; reflexivity|].
           rewrite !markers_app, !constructions_app, Hm, Hc. by split.
        -- apply marker_set_attr.
      * destruct Hout as [e ->]. mstep. repeat split.
        -- eexists. split; [rewrite <- !app_assoc; reflexivity|].
           rewrite !markers_app, !constructions_app, Hm, Hc. by split.
        -- apply marker_set_attr.
    + repeat split.
      * eexists. split; [rewrite <- !app_assoc; reflexivity|]. by split.
      * apply marker_set_attr.
  - repeat split.
    + eexists. split; [rewrite <- !app_assoc; reflexivity|]. by split.
    + apply marker_set_attr.
Qed.

Lemma id_is_no_data_attribute name : "id" <> "data-" +:+ name.
Proof. discriminate. Qed.

Lemma dataset_ensure_id p name :
  dataset (ensure_id w p) name = dataset p name.
Proof.
  unfold dataset, ensure_id, set_attr. simpl.
  apply lookup_insert_ne, id_is_no_data_attribute.
Qed.

Lemma marker_ensure_id p kids :
  marker {| b_props := ensure_id w p; b_kids := kids |}
  = marker {| b_props := p; b_kids := kids |}.
Proof.
  unfold marker, ensure_id, set_attr. simpl.
  by apply lookup_insert_ne.
Qed.

(** Reading the chapters never throws and at most warns. *)
Lemma read_chapters_spec s :
  exists v mid,
    read_chapters w s
    = (Done v, {| blk := blk s; trace := trace s ++ mid |}) /\
    markers mid = [] /\ constructions mid = [] /\
    (forall text,
        dataset (b_props (blk s)) "chapters" = Some text ->
        JSON_parse w text = None -> v = JArr []).
Proof.
  unfold read_chapters. mstep. destruct s as [b tr]. simpl.
  destruct (dataset (b_props b) "chapters") as [text|].
  - destruct (nonempty text).
    + destruct (JSON_parse w text) as [v|] eqn:Hparse; mstep.
      * exists v, []. rewrite app_nil_r. repeat split.
        intros ? [= <-]. congruence.
      * eexists _, _. repeat split.
    + exists (JArr []), []. rewrite app_nil_r. repeat split.
  - exists (JArr []), []. rewrite app_nil_r. repeat split.
Qed.

(** Building a chapter button has no effect on the page. *)
Lemma chapter_button_pure chapter s : (chapter_button w chapter s).2 = s.
Proof.
  unfold chapter_button.
  destruct (member chapter "label") as [label|]; mstep; [|reflexivity].
  destruct (to_text w label); mstep; [|reflexivity].
  destruct (member chapter "time") as [time|]; mstep; [|reflexivity].
  destruct (to_string w time); reflexivity.
Qed.

Lemma for_each_pure items : forall s,
  (for_each (chapter_button w) items s).2 = s.
Proof.
  induction items as [|c items IH]; intros s; [reflexivity|].
  cbn [for_each]. unfold mbind, M_bind, bind.
  pose proof (chapter_button_pure c s) as Hc.
  destruct (chapter_button w c s) as [[btn|e] s1]; simpl in Hc; subst s1;
    [|reflexivity].
  pose proof (IH s) as Hrest.
  destruct (for_each (chapter_button w) items s) as [[btns|e] s1];
    simpl in Hrest; subst s1; reflexivity.
Qed.

(** Rendering the chapters writes nothing to the trace and leaves the
    attributes of the block alone; an empty list renders nothing. *)
Lemma render_chapters_spec chapters s :
  trace (render_chapters w chapters s).2 = trace s /\
  b_props (blk (render_chapters w chapters s).2) = b_props (blk s) /\
  (chapters = JArr [] -> render_chapters w chapters s = (Done false, s)).
Proof.
  unfold render_chapters.
  destruct chapters as [| |b|x|str|items|fields]; mstep;
    try (repeat split; first [reflexivity | discriminate]).
  - destruct (nonempty str); simpl;
      repeat split; first [reflexivity | discriminate].
  - destruct (bool_decide (items = [])) eqn:Hnil; simpl; [repeat split|].
    pose proof (for_each_pure items s) as Hpure.
    destruct (for_each (chapter_button w) items s) as [[btns|e] s1];
      simpl in Hpure; subst s1;
      (repeat split; [intros [= ->]; by rewrite bool_decide_eq_true_2 in Hnil]).
  - destruct (truthy (assoc "length" fields)); simpl;
      repeat split; first [reflexivity | discriminate].
Qed.

(** [build] writes no marker and calls no constructor; when it returns,
    the URL parsed and the configuration comes from it. *)
Lemma build_spec url m s :
  let r := build w url m s in
  (exists mid, trace r.2 = trace s ++ mid /\
               markers mid = [] /\ constructions mid = []) /\
  marker (blk r.2) = marker (blk s) /\
  (forall cfg hc, r.1 = Done (cfg, hc) ->
     exists u, new_URL w url = Some u /\ cfg = built_config w u m s).
Proof.
  unfold build, built_config.
  destruct (new_URL w url) as [u|]; mstep.
  2:{ repeat split; [|discriminate]. exists []. by rewrite app_nil_r. }
  match goal with |- context [read_chapters w ?s1] =>
    destruct (read_chapters_spec s1) as (v & mid & -> & Hm & Hc & _) end.
  simpl.
  match goal with |- context [render_chapters w v ?s2] =>
    destruct (render_chapters_spec v s2) as (Htr & Hprops & _);
    destruct (render_chapters w v s2) as [[hc|e] s3] end;
    simpl in *; (repeat split;
      [ exists mid; by rewrite Htr
      | unfold marker; rewrite Hprops; exact (marker_ensure_id _ [])
      | .. ]).
  - intros cfg hc' [= <- <-]. eauto.
  - discriminate.
Qed.

(** With a chapters attribute that does not parse, [build] returns with
    an empty chapter list: no chapters container is created, and the
    block holds its former children, hidden unless marked as UI, and the
    player wrapper. *)
Lemma build_unparseable url m u text s :
  new_URL w url = Some u ->
  dataset (b_props (blk s)) "chapters" = Some text ->
  JSON_parse w text = None ->
  exists mid,
    markers mid = [] /\ constructions mid = [] /\
    build w url m s
    = (Done (built_config w u m s, false),
       {| blk :=
            {| b_props := ensure_id w (b_props (blk s));
               b_kids := map hide_unless_ui (b_kids (blk s)) ++
                         [player_wrapper
                            (block_id (ensure_id w (b_props (blk s)))
                               +:+ "-player")] |};
          trace := trace s ++ mid |}).
Proof.
  intros Hurl Hdata Hparse. unfold build, built_config. rewrite Hurl. mstep.
  match goal with |- context [read_chapters w ?s1] =>
    destruct (read_chapters_spec s1) as (v & mid & -> & Hm & Hc & Hv) end.
  simpl in Hv. rewrite dataset_ensure_id in Hv.
  rewrite (Hv text Hdata Hparse). simpl.
  exists mid. repeat split; assumption.
Qed.

(** The three ways a decoration can go: it stops at one of the guards
    with the marker at [error]; or [build] throws and the exception leaves
    [decorate]; or [build] returns and the final [try] block runs. *)
Lemma decorate_paths b :
  let r := run w b in
  (r.1 = Done tt /\ constructions (trace r.2) = [] /\
   markers (trace r.2) = ["error"] /\ marker (blk r.2) = Some "error") \/
  (exists e, r.1 = Raised e /\ constructions (trace r.2) = [] /\
             markers (trace r.2) = [] /\ marker (blk r.2) = marker b) \/
  (exists ctor link rest m cfg hc s1,
      returns (gate w) = true /\ VideoViewer w = Some ctor /\
      videoLinks b = link :: rest /\
      urn_match (href_property w (href_attr link)) = Some m /\
      build w (href_property w (href_attr link)) m (entered b)
      = (Done (cfg, hc), s1) /\
      r = start_player ctor cfg m hc s1).
Proof.
  unfold run, decorate. mstep.
  destruct (gate w) as [[]|e]; mstep.
  2:{ left. repeat split. apply marker_set_attr. }
  destruct (VideoViewer w) as [ctor|]; mstep.
  2:{ left. repeat split. apply marker_set_attr. }
  change (videoLinks {| b_props := add_class "dynamic-media-video" (b_props b);
                        b_kids := b_kids b |}) with (videoLinks b).
  destruct (videoLinks b) as [|link rest] eqn:Hlinks; mstep.
  { left. repeat split. apply marker_set_attr. }
  destruct (urn_match (href_property w (href_attr link))) as [m|] eqn:Hm;
    mstep.
  2:{ left. repeat split. apply marker_set_attr. }
  fold (entered b).
  destruct (build_spec (href_property w (href_attr link)) m (entered b))
    as ((mid & Htr & Hmk & Hcs) & Hmarker & _).
  destruct (build w (href_property w (href_attr link)) m (entered b))
    as [[[cfg hc]|e] s1] eqn:Hbuild; simpl in *.
  - right. right. exists ctor, link, rest, m, cfg, hc, s1. repeat split.
    all: assumption.
  - right. left. exists e. rewrite Htr. simpl. repeat split; assumption.
Qed.

Lemma constructed_in tr cfg :
  NewViewer cfg ∈ tr <-> cfg ∈ constructions tr.
Proof.
  unfold constructions. rewrite list_elem_of_omap. split.
  - intros H. by exists (NewViewer cfg).
  - intros ([] & Hin & [= <-]). exact Hin.
Qed.

(** A run that calls the constructor went through [build] and the final
    [try] block, on the first link of the block. *)
Lemma construction_path b cfg :
  NewViewer cfg ∈ trace (run w b).2 ->
  exists ctor link rest m u hc s1,
    VideoViewer w = Some ctor /\
    videoLinks b = link :: rest /\
    urn_match (href_property w (href_attr link)) = Some m /\
    new_URL w (href_property w (href_attr link)) = Some u /\
    cfg = built_config w u m (entered b) /\
    build w (href_property w (href_attr link)) m (entered b)
    = (Done (cfg, hc), s1) /\
    run w b = start_player ctor cfg m hc s1.
Proof.
  intros Hin%constructed_in.
  destruct (decorate_paths b)
    as [(_ & Hc & _) | [(e & _ & Hc & _) |
        (ctor & link & rest & m & cfg' & hc & s1 &
         _ & Hctor & Hlinks & Hm & Hbuild & Hrun)]].
  - rewrite Hc in Hin. by apply elem_of_nil in Hin.
  - rewrite Hc in Hin. by apply elem_of_nil in Hin.
  - destruct (build_spec (href_property w (href_attr link)) m (entered b))
      as ((pre & Hpre & Hpm & Hpc) & _ & Hcfg).
    rewrite Hbuild in Hpre, Hcfg. simpl in Hpre, Hcfg.
    destruct (Hcfg cfg' hc eq_refl) as (u & Hu & Hcfg').
    destruct (start_player_spec ctor cfg' m hc s1)
      as (_ & (mid & Htr & _ & Hmc) & _).
    rewrite <- Hrun in Htr. rewrite Htr, Hpre in Hin. simpl in Hin.
    rewrite !constructions_app, Hpc in Hin. simpl in Hin.
    rewrite Hmc in Hin. apply list_elem_of_singleton in Hin as ->.
    exists ctor, link, rest, m, u, hc, s1. repeat split; assumption.
Qed.

(** A first link without the pattern stops the decoration. *)
Lemma unmatched_first_link b link rest :
  videoLinks b = link :: rest ->
  urn_match (href_property w (href_attr link)) = None ->
  (run w b).1 = Done tt /\
  marker (blk (run w b).2) = Some "error" /\
  markers (trace (run w b).2) = ["error"] /\
  constructions (trace (run w b).2) = [].
Proof.
  intros Hlinks Hnone. unfold run, decorate. mstep.
  destruct (gate w) as [[]|e]; mstep.
  2:{ split_and!; try reflexivity. apply marker_set_attr. }
  destruct (VideoViewer w) as [ctor|]; mstep.
  2:{ split_and!; try reflexivity. apply marker_set_attr. }
  change (videoLinks {| b_props := add_class "dynamic-media-video" (b_props b);
                        b_kids := b_kids b |}) with (videoLinks b).
  rewrite Hlinks. mstep. rewrite Hnone. mstep.
  split_and!; try reflexivity. apply marker_set_attr.
Qed.

Lemma nonempty_append a b : nonempty b = true -> nonempty (a +:+ b) = true.
Proof. destruct a; [trivial | reflexivity]. Qed.

(** Both manifests are always passed on: the derived URLs are not empty. *)
Lemma make_params_sources u m fl :
  sources (make_params (derive_urls u m) fl)
  = <["HLS" := hlsUrl (derive_urls u m)]>
      (<["DASH" := dashUrl (derive_urls u m)]> ∅).
Proof.
  unfold make_params, add_source, derive_urls. cbn [sources hlsUrl dashUrl].
  by rewrite !nonempty_append by (apply nonempty_append; reflexivity).
Qed.

(** Adding the class and the id leaves the flags as they are. *)
Lemma read_flags_entered b :
  read_flags {| b_props := ensure_id w (b_props (blk (entered b)));
                b_kids := b_kids (blk (entered b)) |}
  = read_flags b.
Proof.
  unfold read_flags, getBoolFromDataOrRow. simpl.
  by rewrite !dataset_ensure_id.
Qed.
End Decoration.

(** C2, the code at a failing input: the sample block with
    [data-chapters="null"], on a page where the viewer is ready.
    [JSON.parse] returns [null], reading [chapters.length] throws outside
    every [try], and the exception leaves [decorate]: no marker is written,
    neither as an attribute nor in the trace, and no player is built. *)
Theorem null_chapters_escape :
  JSON_parse good_world "null" = Some JNull /\
  (run good_world null_chapters_block).1
  = Raised (TypeError "Cannot read properties of null or undefined, reading length") /\
  marker (blk (run good_world null_chapters_block).2) = None /\
  markers (trace (run good_world null_chapters_block).2) = [] /\
  constructions (trace (run good_world null_chapters_block).2) = [].
Proof. vm_compute. repeat split. Qed.

(** C5: on every block, a flag whose data attribute is present is decided
    by that attribute alone, whatever the rows say: it is true exactly when
    the attribute reads [true] in any letter case.  When the attribute is
    absent and the row yields no text, autoplay, loop and muted are false;
    showControls has no row and is true when its attribute is absent.  These
    flags are the ones a player built by [decorate] receives. *)
Theorem flag_resolution (b : block) :
  let p := b_props b in
  let rows := children (b_kids b) in
  let fl := read_flags b in
  (forall v, dataset p "autoplay" = Some v -> f_autoplay fl = is_true_text v) /\
  (forall v, dataset p "loop" = Some v -> f_loop fl = is_true_text v) /\
  (forall v, dataset p "muted" = Some v -> f_muted fl = is_true_text v) /\
  (forall v, dataset p "controls" = Some v ->
             f_showControls fl = is_true_text v) /\
  (dataset p "autoplay" = None -> getTextFromRow rows 2 = EmptyString ->
   f_autoplay fl = false) /\
  (dataset p "loop" = None -> getTextFromRow rows 3 = EmptyString ->
   f_loop fl = false) /\
  (dataset p "muted" = None -> getTextFromRow rows 4 = EmptyString ->
   f_muted fl = false) /\
  (dataset p "controls" = None -> f_showControls fl = true) /\
  (forall v, is_true_text v = true <-> toLowerCase v = "true") /\
  (forall w cfg, NewViewer cfg ∈ trace (run w b).2 ->
     autoplay (params cfg) = flag_string (f_autoplay fl) /\
     loop (params cfg) = flag_string (f_loop fl) /\
     muted (params cfg) = flag_string (f_muted fl) /\
     hidecontrolbar (params cfg) = flag_string (negb (f_showControls fl))).
Proof.
  intros p rows fl. subst p rows fl.
  split_and!.
  1-4: intros v Hv; unfold read_flags, getBoolFromDataOrRow; simpl;
       by rewrite Hv.
  1-3: intros Hd Hrow; unfold read_flags, getBoolFromDataOrRow; simpl;
       by rewrite Hd, Hrow.
  - intros Hd. unfold read_flags. simpl. by rewrite Hd.
  - intros v. apply String.eqb_eq.
  - intros w cfg Hcfg.
    destruct (construction_path w b cfg Hcfg)
      as (_ & _ & _ & m & u & _ & _ & _ & _ & _ & _ & -> & _).
    unfold built_config.
    cbn [params autoplay loop muted hidecontrolbar make_params].
    rewrite read_flags_entered. repeat split.
Qed.

Lemma flag_resolution_witness :
  dataset (b_props override_block) "autoplay" = Some "false" /\
  getTextFromRow (children (b_kids override_block)) 2 = "true" /\
  f_autoplay (read_flags override_block) = false /\
  f_showControls (read_flags override_block) = true.
Proof.
  assert (dataset (b_props override_block) "autoplay" = Some "false") as Hd
    by (vm_compute; reflexivity).
  assert (dataset (b_props override_block) "controls" = None) as Hc
    by (vm_compute; reflexivity).
  split; [exact Hd|]. split; [vm_compute; reflexivity|].
  pose proof (flag_resolution override_block) as H. cbv zeta in H.
  destruct H as (Ha & _ & _ & _ & _ & _ & _ & Hs & _).
  split; [exact (Ha _ Hd) | exact (Hs Hc)].
Defined.

(** C6, as the code has it: in every run that calls the viewer constructor,
    the marker is written exactly twice: [loading] right before the
    constructor call, and then [true] when the constructor, [init()] and the
    analytics wiring that follows all return, [error] when any of the three
    throws.  The exception is caught: [decorate] returns normally, and the
    block carries the last marker. *)
Theorem marker_protocol (w : World) (b : block) (cfg : viewer_config)
    (Hreach : NewViewer cfg ∈ trace (run w b).2) :
  exists ctor pre mid,
    VideoViewer w = Some ctor /\
    (run w b).1 = Done tt /\
    trace (run w b).2 = pre ++ SetMarker "loading" :: NewViewer cfg :: mid /\
    markers pre = [] /\ constructions pre = [] /\ constructions mid = [] /\
    markers mid = [if starts (ctor cfg) then "true" else "error"] /\
    marker (blk (run w b).2)
    = Some (if starts (ctor cfg) then "true" else "error").
Proof.
  destruct (construction_path w b cfg Hreach)
    as (ctor & link & rest & m & u & hc & s1 &
        Hctor & _ & _ & _ & _ & Hbuild & ->).
  destruct (build_spec w (href_property w (href_attr link)) m (entered b))
    as ((pre & Hpre & Hpm & Hpc) & _ & _).
  rewrite Hbuild in Hpre. simpl in Hpre.
  destruct (start_player_spec ctor cfg m hc s1)
    as (Hdone & (mid & Htr & Hmm & Hmc) & Hmarker & _).
  exists ctor, pre, mid. rewrite Htr, Hpre. repeat split; assumption.
Qed.

Lemma marker_protocol_witness :
  NewViewer (built_config good_world (mkURL "https:" "host")
               "/adobe/assets/urn:x:y" (entered sample_block))
    ∈ trace (run good_world sample_block).2 /\
  markers (trace (run good_world sample_block).2) = ["loading"; "true"] /\
  marker (blk (run good_world sample_block).2) = Some "true".
Proof.
  assert (NewViewer (built_config good_world (mkURL "https:" "host")
                       "/adobe/assets/urn:x:y" (entered sample_block))
            ∈ trace (run good_world sample_block).2) as Hin.
  { apply list_elem_of_In. vm_compute. right. left. reflexivity. }
  split; [exact Hin|].
  destruct (marker_protocol good_world sample_block _ Hin)
    as (ctor & pre & mid & Hctor & _ & Htr & Hpm & _ & _ & Hmm & Hmarker).
  injection Hctor as <-.
  rewrite Htr, markers_app, Hpm. simpl. rewrite Hmm. split; [reflexivity|].
  exact Hmarker.
Defined.

(** C6, counterexample to the claim as stated: the constructor returns and
    [init()] returns, but the media handle has no [addEventListener]; the
    analytics wiring throws inside the [try] block and the marker ends at
    [error], not at [true]. *)
Lemma wiring_failure_marks_error :
  let w := world_with (Returns tt) mute_viewer in
  VideoViewer w = Some (fun _ => Returns mute_viewer) /\
  constructs_and_inits (Returns mute_viewer) = true /\
  length (constructions (trace (run w sample_block).2)) = 1 /\
  (run w sample_block).1 = Done tt /\
  markers (trace (run w sample_block).2) = ["loading"; "error"] /\
  marker (blk (run w sample_block).2) = Some "error".
Proof. vm_compute. repeat split. Qed.

(** C7, as the code has it: on every block without a link, decoration
    returns normally with the marker at [error], written once, and calls no
    constructor.  When the readiness gate resolved and the viewer
    constructor is on the page, it also hides every child element of the
    block and does nothing else; when the gate failed or the constructor is
    missing, the children are left as they are. *)
Theorem no_links (w : World) (b : block) (Hnone : videoLinks b = []) :
  (run w b).1 = Done tt /\
  marker (blk (run w b).2) = Some "error" /\
  markers (trace (run w b).2) = ["error"] /\
  constructions (trace (run w b).2) = [] /\
  (returns (gate w) = true -> is_Some (VideoViewer w) ->
   b_kids (blk (run w b).2) = map hide (b_kids b) /\
   Forall hidden (b_kids (blk (run w b).2)) /\
   trace (run w b).2 = [SetMarker "error"]) /\
  (returns (gate w) = false \/ VideoViewer w = None ->
   b_kids (blk (run w b).2) = b_kids b).
Proof.
  unfold run, decorate. mstep.
  destruct (gate w) as [[]|e]; mstep.
  2:{ split_and!; try reflexivity; [apply marker_set_attr | discriminate]. }
  destruct (VideoViewer w) as [ctor|]; mstep.
  2:{ split_and!; try reflexivity; [apply marker_set_attr|].
      by intros _ [? [=]]. }
  change (videoLinks {| b_props := add_class "dynamic-media-video" (b_props b);
                        b_kids := b_kids b |}) with (videoLinks b).
  rewrite Hnone. mstep.
  split_and!; try reflexivity; [apply marker_set_attr | |].
  - intros _ _. split_and!; try reflexivity.
    apply Forall_forall. intros n (x & -> & _)%list_elem_of_fmap.
    by destruct x.
  - intros [[=] | [=]].
Qed.

Lemma no_links_witness :
  videoLinks linkless_block = [] /\
  (run good_world linkless_block).1 = Done tt /\
  marker (blk (run good_world linkless_block).2) = Some "error" /\
  Forall hidden (b_kids (blk (run good_world linkless_block).2)).
Proof.
  assert (videoLinks linkless_block = []) as Hnone by (vm_compute; reflexivity).
  split; [exact Hnone|].
  destruct (no_links good_world linkless_block Hnone)
    as (Hdone & Hmarker & _ & _ & Hhide & _).
  split; [exact Hdone|]. split; [exact Hmarker|].
  apply Hhide; [reflexivity | by eexists].
Defined.

(** C7, counterexample to the claim as stated: when the viewer script never
    became ready, a block without links gets the [error] marker but its
    children stay visible. *)
Lemma failed_gate_hides_nothing :
  videoLinks linkless_block = [] /\
  marker (blk (run timed_out_world linkless_block).2) = Some "error" /\
  b_kids (blk (run timed_out_world linkless_block).2) = b_kids linkless_block /\
  ~ Forall hidden (b_kids (blk (run timed_out_world linkless_block).2)).
Proof.
  split_and!; try (vm_compute; reflexivity).
  intros H. vm_compute in H. apply Forall_cons in H as [H _]. discriminate.
Qed.

(** C8: on every block whose first link has a target that does not contain
    the asset-identifier pattern, decoration returns normally with the
    marker at [error], written once, and calls no constructor. *)
Theorem foreign_url_is_error (w : World) (b : block) (link : node)
    (rest : list node)
    (Hlinks : videoLinks b = link :: rest)
    (Hforeign : ~ contains_asset_path (href_property w (href_attr link))) :
  (run w b).1 = Done tt /\
  marker (blk (run w b).2) = Some "error" /\
  markers (trace (run w b).2) = ["error"] /\
  constructions (trace (run w b).2) = [].
Proof.
  apply urn_match_None_iff in Hforeign.
  by apply (unmatched_first_link w b link rest).
Qed.

Lemma foreign_url_is_error_witness :
  videoLinks foreign_block
  = [anchor "https://host/videos/clip.mp4" "video"] /\
  ~ contains_asset_path "https://host/videos/clip.mp4" /\
  (run good_world foreign_block).1 = Done tt /\
  marker (blk (run good_world foreign_block).2) = Some "error" /\
  constructions (trace (run good_world foreign_block).2) = [].
Proof.
  assert (videoLinks foreign_block
          = [anchor "https://host/videos/clip.mp4" "video"]) as Hlinks
    by (vm_compute; reflexivity).
  assert (~ contains_asset_path "https://host/videos/clip.mp4") as Hforeign.
  { apply urn_match_None_iff. vm_compute. reflexivity. }
  split; [exact Hlinks|]. split; [exact Hforeign|].
  destruct (foreign_url_is_error good_world foreign_block _ _ Hlinks Hforeign)
    as (Hdone & Hmarker & _ & Hnone).
  by split_and!.
Defined.

(** C9: take a block whose first link is a valid video link (the pattern
    matches and the URL parses) and whose [data-chapters] attribute holds a
    text that [JSON.parse] rejects, on a page where the viewer is ready and
    the player starts.  Then the chapter list is the empty list, the only
    node added to the block is the player wrapper (no chapters container),
    and decoration returns normally with the marker going from [loading] to
    [true]. *)
Theorem malformed_chapters_degrade (w : World) (b : block)
    (link : node) (rest : list node) (m : string) (u : URL) (text : string)
    (ctor : viewer_config -> attempt viewer)
    (Hgate : returns (gate w) = true)
    (Hctor : VideoViewer w = Some ctor)
    (Hlinks : videoLinks b = link :: rest)
    (Hmatch : urn_match (href_property w (href_attr link)) = Some m)
    (Hurl : new_URL w (href_property w (href_attr link)) = Some u)
    (Hdata : dataset (b_props b) "chapters" = Some text)
    (Hparse : JSON_parse w text = None)
    (Hstart : starts (ctor (built_config w u m (entered b))) = true) :
  (forall s, dataset (b_props (blk s)) "chapters" = Some text ->
             (read_chapters w s).1 = Done (JArr [])) /\
  (run w b).1 = Done tt /\
  marker (blk (run w b).2) = Some "true" /\
  markers (trace (run w b).2) = ["loading"; "true"] /\
  constructions (trace (run w b).2) = [built_config w u m (entered b)] /\
  b_kids (blk (run w b).2)
  = map hide_unless_ui (b_kids b) ++
    [player_wrapper (containerId (built_config w u m (entered b)))] /\
  (forall n, n ∈ b_kids (blk (run w b).2) ->
             is_chapters_container n = true ->
             n ∈ map hide_unless_ui (b_kids b)).
Proof.
  split.
  { intros s Hs.
    destruct (read_chapters_spec w s) as (v & mid & -> & _ & _ & Hv).
    simpl. f_equal. eauto. }
  destruct (build_unparseable w (href_property w (href_attr link)) m u text
              (entered b) Hurl Hdata Hparse) as (mid & Hmm & Hmc & Hbuild).
  assert (run w b
          = start_player ctor (built_config w u m (entered b)) m false
              {| blk := {| b_props := ensure_id w (b_props (blk (entered b)));
                           b_kids := map hide_unless_ui (b_kids b) ++
                             [player_wrapper
                                (containerId (built_config w u m (entered b)))] |};
                 trace := mid |}) as ->.
  { unfold run, decorate. mstep.
    destruct (gate w) as [[]|e]; [|discriminate]. mstep.
    rewrite Hctor. mstep.
    change (videoLinks {| b_props := add_class "dynamic-media-video" (b_props b);
                          b_kids := b_kids b |}) with (videoLinks b).
    rewrite Hlinks. mstep. rewrite Hmatch. mstep.
    fold (entered b). rewrite Hbuild. reflexivity. }
  match goal with |- context [start_player ctor ?cfg m false ?s1] =>
    destruct (start_player_spec ctor cfg m false s1)
      as (Hdone & (tl & Htr & Htm & Htc) & Hmarker & Hkids) end.
  rewrite Hstart in Htm, Hmarker.
  split_and!; try assumption.
  - rewrite Htr. simpl. rewrite markers_app, Hmm. simpl. by rewrite Htm.
  - rewrite Htr. simpl. rewrite constructions_app, Hmc. simpl. by rewrite Htc.
  - intros n Hn Hcontainer. rewrite Hkids in Hn. simpl in Hn.
    apply elem_of_app in Hn as [Hn | Hn]; [exact Hn|].
    apply list_elem_of_singleton in Hn as ->. discriminate.
Qed.

Lemma malformed_chapters_degrade_witness :
  dataset (b_props broken_chapters_block) "chapters" = Some "{oops" /\
  JSON_parse good_world "{oops" = None /\
  (run good_world broken_chapters_block).1 = Done tt /\
  marker (blk (run good_world broken_chapters_block).2) = Some "true" /\
  length (b_kids (blk (run good_world broken_chapters_block).2)) = 6.
Proof.
  assert (dataset (b_props broken_chapters_block) "chapters" = Some "{oops")
    as Hdata by (vm_compute; reflexivity).
  assert (JSON_parse good_world "{oops" = None) as Hparse
    by (vm_compute; reflexivity).
  split; [exact Hdata|]. split; [exact Hparse|].
  destruct (malformed_chapters_degrade good_world broken_chapters_block
              (anchor sample_url "video") [] "/adobe/assets/urn:x:y"
              (mkURL "https:" "host") "{oops" (fun _ => Returns good_viewer))
    as (_ & Hdone & Hmarker & _ & _ & Hkids & _);
    try (vm_compute; reflexivity); try assumption.
  split; [exact Hdone|]. split; [exact Hmarker|].
  rewrite Hkids. reflexivity.
Defined.

(** C10: on every block with two or more links, whatever the page: a
    player is only ever built from the first link in document order (its
    target matches the pattern and parses, and the poster and both manifest
    URLs passed to the constructor are derived from it); and when the
    target of the first link does not match, decoration ends in [error]
    with no player, whatever the other links are. *)
Theorem first_link_is_source (w : World) (b : block) (l1 l2 : node)
    (rest : list node) (Hlinks : videoLinks b = l1 :: l2 :: rest) :
  let videoUrl := href_property w (href_attr l1) in
  first_link_url w b = Some videoUrl /\
  (forall cfg, NewViewer cfg ∈ trace (run w b).2 ->
     exists urls,
       code_urls w videoUrl = Some urls /\
       posterimage (params cfg) = posterImageUrl urls /\
       sources (params cfg)
       = <["HLS" := hlsUrl urls]> (<["DASH" := dashUrl urls]> ∅)) /\
  (urn_match videoUrl = None ->
   (run w b).1 = Done tt /\
   marker (blk (run w b).2) = Some "error" /\
   constructions (trace (run w b).2) = []).
Proof.
  intros videoUrl. split_and!.
  - unfold first_link_url. by rewrite Hlinks.
  - intros cfg Hcfg.
    destruct (construction_path w b cfg Hcfg)
      as (_ & link & rest' & m & u & _ & _ & _ & Hl & Hm & Hu & -> & _).
    rewrite Hlinks in Hl. injection Hl as <- <-.
    exists (derive_urls u m). split_and!.
    + unfold code_urls. fold videoUrl in Hm, Hu. by rewrite Hm, Hu.
    + reflexivity.
    + unfold built_config. cbn [params]. apply make_params_sources.
  - intros Hnone.
    destruct (unmatched_first_link w b l1 (l2 :: rest) Hlinks Hnone)
      as (? & ? & _ & ?).
    by split_and!.
Qed.

Lemma first_link_is_source_witness :
  videoLinks two_link_block
  = [anchor sample_url "video";
     anchor "https://other/adobe/assets/urn:z/as/b.mp4" "Title"] /\
  map (fun cfg => posterimage (params cfg))
    (constructions (trace (run good_world two_link_block).2))
  = ["https://host/adobe/assets/urn:x:y/as/thumbnail.jpeg?preferwebp=true"] /\
  first_link_url good_world two_link_block = Some sample_url.
Proof.
  assert (videoLinks two_link_block
          = [anchor sample_url "video";
             anchor "https://other/adobe/assets/urn:z/as/b.mp4" "Title"])
    as Hlinks by (vm_compute; reflexivity).
  split; [exact Hlinks|]. split; [vm_compute; reflexivity|].
  exact (proj1 (first_link_is_source good_world two_link_block _ _ _ Hlinks)).
Defined.
